(** * Remorph: forensic feature and attribution engine

    A shallow embedding of the Python sources

      - [backend/src/trace/attribution.py]   (class [AttributionIndex])
      - [backend/src/models/detector.py]     (class [HeuristicDetector])
      - [backend/src/models/face_detector.py] ([detect_largest_face])
      - [backend/src/ingest/filtering.py]    ([accept_image])
      - [backend/src/utils/ela.py]           ([error_level_analysis])
      - [backend/src/utils/frequency.py]     ([fft_highfreq_ratio])
      - [backend/src/utils/validation.py]    ([sanitize_filename])
      - [backend/src/api/batch_processor.py] ([BatchProcessor.process_batch])
      - [backend/src/api/rate_limiter.py]    (class [RateLimiter])

    Python [float] values are modelled by the real numbers [R]: arithmetic
    is exact, without rounding and without infinities; the scorer's floats
    can also be NaN.  The main theorems state of a computed float an
    equation that transcribes the source's formula, a weak inequality, a
    comparison the source itself makes, or a bound with a margin; bounds
    that are strict only because the arithmetic is exact stay in auxiliary
    lemmas.  Python [int] is [Z], [str] is [string], a [Dict[str, _]] is
    an association list in insertion order, and code that can raise
    returns a [result]. *)

From Stdlib Require Import Reals Lra Lia ZArith List String Bool.
From Stdlib Require Import Permutation Sorted.
Import ListNotations.

Set Implicit Arguments.

(* ================================================================== *)
(** * Python values used by the sources *)

(** ** Exceptions and results *)

Inductive exn : Type :=
| NameError
| ZeroDivisionError
| KeyError
| TypeError
| AttributeError
| OSError
| JSONDecodeError.

Inductive result (A : Type) : Type :=
| Return (a : A)
| Raise (e : exn).

Arguments Return {A} a.
Arguments Raise {A} e.

(** ** Dictionaries with string keys

    A [dict] keeps its items in insertion order; assigning to an existing
    key keeps the key's position, assigning to a new key appends. *)

Definition dict (V : Type) : Type := list (string * V).

Fixpoint dict_get {V : Type} (k : string) (d : dict V) : option V :=
  match d with
  | [] => None
  | (k', v) :: d' => if String.eqb k k' then Some v else dict_get k d'
  end.

Definition dict_mem {V : Type} (k : string) (d : dict V) : bool :=
  match dict_get k d with Some _ => true | None => false end.

Fixpoint dict_set {V : Type} (k : string) (v : V) (d : dict V) : dict V :=
  match d with
  | [] => [(k, v)]
  | (k', v') :: d' =>
      if String.eqb k k' then (k', v) :: d' else (k', v') :: dict_set k v d'
  end.

Definition dict_keys {V : Type} (d : dict V) : list string := map fst d.

(** [d.get(k, default)] *)
Definition dict_get_default {V : Type} (k : string) (default : V) (d : dict V) : V :=
  match dict_get k d with Some v => v | None => default end.

(** ** A state and exception monad

    [M S A] is a computation over a mutable state [S] that either returns
    an [A] or raises; the state reached when the exception is raised is
    kept, as Python keeps every mutation made before a [raise]. *)

Definition M (S A : Type) : Type := S -> result A * S.

Definition ret {S A : Type} (a : A) : M S A := fun s => (Return a, s).

Definition raise {S A : Type} (e : exn) : M S A := fun s => (Raise e, s).

Definition bind {S A B : Type} (m : M S A) (k : A -> M S B) : M S B :=
  fun s =>
    match m s with
    | (Return a, s') => k a s'
    | (Raise e, s') => (Raise e, s')
    end.

(** [try: m  except Exception as e: h e] *)
Definition try_except {S A : Type} (m : M S A) (h : exn -> M S A) : M S A :=
  fun s =>
    match m s with
    | (Return a, s') => (Return a, s')
    | (Raise e, s') => h e s'
    end.

Definition get_state {S : Type} : M S S := fun s => (Return s, s).

Definition lift_result {S A : Type} (r : result A) : M S A := fun s => (r, s).

Declare Scope py_scope.
Delimit Scope py_scope with py.
Notation "x <- m ;; k" := (bind m (fun x => k))
  (at level 61, m at next level, right associativity) : py_scope.
Notation "m ;;; k" := (bind m (fun _ => k))
  (at level 61, right associativity) : py_scope.

Fixpoint replace_nth {A : Type} (i : nat) (x : A) (l : list A) : list A :=
  match l, i with
  | [], _ => []
  | _ :: l', O => x :: l'
  | y :: l', S i' => y :: replace_nth i' x l'
  end.

(* ================================================================== *)
(** * The attribution index ([src/trace/attribution.py]) *)

Module Attribution.

Open Scope R_scope.
Open Scope string_scope.

(** ** Data model *)

(** [Dict[str, float]] *)
Definition Features : Type := dict R.

(** One entry of [db["families"]].  A key that [json.load] did not deliver
    is [None] here, which is what the [.get(key, default)] calls of the
    source look at; ["name"] is always read with [f["name"]]. *)
Record Family : Type := mkFamily {
  name : string;
  features_mean : option Features;
  sample_count : option Z;
  last_updated : option string
}.

Record Database : Type := mkDatabase {
  version : Z;
  families : list Family
}.

(** ** The file system

    [files] is the content of every path and [dirs] tells which
    directories exist.  What goes wrong when the file at a path is
    written is read from the world: [write_fault p] names the first of
    the three steps of [_save] that raises for the path [p], if one does,
    and [makedirs_makes p] lists the directories that
    [os.makedirs(os.path.dirname(p), exist_ok=True)] makes before it
    returns or raises.  [io_trace] records every write attempt, most
    recent first. *)

Inductive file_state : Type :=
| Absent
| Unreadable
| Text (content : string).

Inductive io_event : Type :=
| IoWrite (p : string) (content : string)
| IoWriteFailed (p : string).

(** - [MakedirsRaises]: [os.makedirs] raises (a bare file name, whose
      directory name is empty; a missing permission);
    - [OpenRaises]: [open(path, "w")] raises, the file is not touched;
    - [DumpRaises written]: the file was opened, and so truncated, and
      [json.dump] or the closing flush raises after the first [written]
      characters reached the file. *)
Inductive fault : Type :=
| NoFault
| MakedirsRaises
| OpenRaises
| DumpRaises (written : nat).

Record World : Type := mkWorld {
  files : string -> file_state;
  dirs : string -> bool;
  makedirs_makes : string -> list string;
  write_fault : string -> fault;
  io_trace : list io_event
}.

(** Some step of writing the file at [p] raises. *)
Definition write_fails (w : World) (p : string) : bool :=
  match write_fault w p with
  | NoFault => false
  | _ => true
  end.

(** The world that one attempt to write [content] to [p] leaves. *)
Definition after_save (w : World) (p content : string) : World :=
  let dirs' := fun d => dirs w d || existsb (String.eqb d) (makedirs_makes w p) in
  match write_fault w p with
  | NoFault =>
      mkWorld (fun q => if String.eqb q p then Text content else files w q)
        dirs' (makedirs_makes w) (write_fault w) (IoWrite p content :: io_trace w)
  | MakedirsRaises | OpenRaises =>
      mkWorld (files w) dirs' (makedirs_makes w) (write_fault w)
        (IoWriteFailed p :: io_trace w)
  | DumpRaises written =>
      mkWorld (fun q => if String.eqb q p
                        then Text (substring 0 written content) else files w q)
        dirs' (makedirs_makes w) (write_fault w) (IoWriteFailed p :: io_trace w)
  end.

(** [self] of an [AttributionIndex] together with the world it runs in. *)
Record Machine : Type := mkMachine {
  path : string;
  db : Database;
  world : World
}.

Definition set_db (d : Database) : M Machine unit :=
  fun m => (Return tt, mkMachine (path m) d (world m)).

Definition set_families (fs : list Family) : M Machine unit :=
  fun m => (Return tt, mkMachine (path m) (mkDatabase (version (db m)) fs) (world m)).

(** ** [_create_default_db]: the seed families *)

Definition default_db : Database :=
  mkDatabase 1
    [ mkFamily "faceswap_blend"
        (Some [("fft_high_ratio", 0.62); ("ela_mean", 18.0);
               ("lap_var", 120.0); ("jpeg_score", 0.55)])
        (Some 0%Z) None;
      mkFamily "diffusion_inpaint"
        (Some [("fft_high_ratio", 0.68); ("ela_mean", 12.0);
               ("lap_var", 160.0); ("jpeg_score", 0.35)])
        (Some 0%Z) None;
      mkFamily "stylegan_family"
        (Some [("fft_high_ratio", 0.75); ("ela_mean", 9.5);
               ("lap_var", 180.0); ("jpeg_score", 0.4)])
        (Some 0%Z) None ].

(** What [json.load] makes of a file's text: a database, a
    [json.JSONDecodeError], or a JSON value on which the line
    [len(self.db.get('families', []))] raises. *)
Inductive parsed : Type :=
| Decoded (d : Database)
| DecodeError
| Malformed.

(** The first family called [family_name], with its index:
    [for f in self.db["families"]: if f["name"] == family_name: ... break]. *)
Fixpoint find_family (family_name : string) (fs : list Family) : option (nat * Family) :=
  match fs with
  | [] => None
  | f :: fs' =>
      if String.eqb (name f) family_name then Some (O, f)
      else match find_family family_name fs' with
           | Some (i, g) => Some (S i, g)
           | None => None
           end
  end.

(** The loop of [add_sample] over [features.items()], mutating
    [current_features]; [n] is the family's sample count.  The dictionary
    reached when [(value - old) / (n + 1)] divides by zero is returned
    with the exception. *)
Fixpoint update_mean (n : Z) (current : Features) (items : Features)
  : Features * result unit :=
  match items with
  | [] => (current, Return tt)
  | (key, value) :: rest =>
      match dict_get key current with
      | Some old =>
          if (n + 1 =? 0)%Z then (current, Raise ZeroDivisionError)
          else update_mean n
                 (dict_set key (old + (value - old) / IZR (n + 1)) current) rest
      | None => update_mean n (dict_set key value current) rest
      end
  end.

Section Index.

(** [json.load] and [json.dump(_, indent=2)] of the standard library. *)
Variable json_load : string -> parsed.
Variable json_dump : Database -> string.

Open Scope py_scope.

(** ** [_save] *)

(** [os.makedirs(os.path.dirname(p), exist_ok=True)]: the directories it
    made stay, also when it raises. *)
Definition makedirs_for (p : string) : M Machine unit :=
  fun m =>
    let w := world m in
    let made :=
      mkWorld (files w)
        (fun d => dirs w d || existsb (String.eqb d) (makedirs_makes w p))
        (makedirs_makes w) (write_fault w) in
    match write_fault w p with
    | MakedirsRaises =>
        (Raise OSError,
         mkMachine (path m) (db m) (made (IoWriteFailed p :: io_trace w)))
    | _ => (Return tt, mkMachine (path m) (db m) (made (io_trace w)))
    end.

(** [with open(p, "w", encoding="utf-8") as f: json.dump(self.db, f, indent=2)]:
    [open] truncates the file, and what was written before [json.dump]
    raised stays in it. *)
Definition open_and_dump (p content : string) : M Machine unit :=
  fun m =>
    let w := world m in
    let holding (st : file_state) (ev : io_event) :=
      mkMachine (path m) (db m)
        (mkWorld (fun q => if String.eqb q p then st else files w q)
                 (dirs w) (makedirs_makes w) (write_fault w) (ev :: io_trace w)) in
    match write_fault w p with
    | OpenRaises =>
        (Raise OSError,
         mkMachine (path m) (db m)
           (mkWorld (files w) (dirs w) (makedirs_makes w) (write_fault w)
                    (IoWriteFailed p :: io_trace w)))
    | DumpRaises written =>
        (Raise OSError,
         holding (Text (substring 0 written content)) (IoWriteFailed p))
    | _ => (Return tt, holding (Text content) (IoWrite p content))
    end.

Definition _save : M Machine unit :=
  try_except
    (m <- get_state ;;
     makedirs_for (path m) ;;;
     open_and_dump (path m) (json_dump (db m)))
    (fun _ => ret tt).

(** ** [_create_default_db] and [_load] *)

Definition _create_default_db : M Machine unit :=
  set_db default_db ;;; _save.

Definition _load : M Machine unit :=
  try_except
    (m <- get_state ;;
     match files (world m) (path m) with
     | Absent => _create_default_db
     | Unreadable => raise OSError
     | Text s =>
         match json_load s with
         | Decoded d => set_db d
         | DecodeError => raise JSONDecodeError
         | Malformed => raise AttributeError
         end
     end)
    (fun e =>
       match e with
       | JSONDecodeError => _create_default_db
       | _ => _create_default_db
       end).

(** [AttributionIndex(path)] *)
Definition init (p : string) (w : World) : result unit * Machine :=
  _load (mkMachine p (mkDatabase 1 []) w).

(** ** [add_sample]

    [now] is what evaluating [datetime.now().isoformat()] gives in the
    module's global namespace. *)

Section AddSample.

Variable now : result string.

Definition add_sample_body (family_name : string) (features : Features)
  : M Machine unit :=
  m <- get_state ;;
  let fams := families (db m) in
  match find_family family_name fams with
  | None =>
      (* the dict display is evaluated, last item included, before append *)
      ts <- lift_result now ;;
      set_families
        (fams ++ [mkFamily family_name (Some features) (Some 1%Z) (Some ts)])
  | Some (i, family) =>
      let n := match sample_count family with Some c => c | None => 0%Z end in
      let current := match features_mean family with Some d => d | None => [] end in
      let (current', looped) := update_mean n current features in
      (* [current_features] aliases the family's own dict when it has one *)
      match features_mean family with
      | Some _ =>
          set_families
            (replace_nth i
               (mkFamily (name family) (Some current') (sample_count family)
                  (last_updated family)) fams)
      | None => ret tt
      end ;;;
      lift_result looped ;;;
      set_families
        (replace_nth i
           (mkFamily (name family) (Some current') (Some (n + 1)%Z)
              (last_updated family)) fams) ;;;
      ts <- lift_result now ;;
      set_families
        (replace_nth i
           (mkFamily (name family) (Some current') (Some (n + 1)%Z) (Some ts))
           fams)
  end.

Definition add_sample_in (family_name : string) (features : Features)
  : M Machine bool :=
  try_except
    (add_sample_body family_name features ;;; _save ;;; ret true)
    (fun _ => ret false).

End AddSample.

(** The module imports [json], [math], [os], [typing] and [setup_logger];
    the name [datetime] is not bound, so evaluating it raises. *)
Definition datetime_now_isoformat : result string := Raise NameError.

Definition add_sample : string -> Features -> M Machine bool :=
  add_sample_in datetime_now_isoformat.

End Index.

(** ** [all_families] *)

Open Scope py_scope.

Definition all_families : M Machine (list string) :=
  m <- get_state ;;
  ret (map name (families (db m))).

(** ** [match] *)

(** [d[k]] *)
Definition dict_item {V : Type} (k : string) (d : dict V) : result V :=
  match dict_get k d with Some v => Return v | None => Raise KeyError end.

(** A list comprehension whose element expression can raise. *)
Fixpoint comprehension {A B : Type} (f : A -> result B) (l : list A) : result (list B) :=
  match l with
  | [] => Return []
  | a :: l' =>
      match f a with
      | Raise e => Raise e
      | Return b =>
          match comprehension f l' with
          | Raise e => Raise e
          | Return bs => Return (b :: bs)
          end
      end
  end.

(** Python's [sum]: a left fold from [0]. *)
Definition py_sum (l : list R) : R := fold_left Rplus l 0.

Definition dot_product (query_vector family_vector : list R) : R :=
  py_sum (map (fun xy => fst xy * snd xy) (combine query_vector family_vector)).

(** [math.sqrt(sum(x * x for x in v)) + 1e-8].  Over the reals the sum
    exceeds the square root; a binary64 addition absorbs the [1e-8] once
    the root is large. *)
Definition norm (v : list R) : R := sqrt (py_sum (map (fun x => x * x) v)) + 1e-8.

Definition common_keys (feats family_features : Features) : list string :=
  filter (fun k => dict_mem k feats) (dict_keys family_features).

(** The body of the loop of [match] for one family: [Return None] is the
    [continue] of a family without common keys, [Raise] is caught by the
    loop's [except Exception: continue]. *)
Definition family_similarity (feats : Features) (family : Family)
  : result (option (string * R)) :=
  let family_features :=
    match features_mean family with Some d => d | None => [] end in
  let keys := common_keys feats family_features in
  match keys with
  | [] => Return None
  | _ :: _ =>
      match comprehension (fun k => dict_item k feats) keys with
      | Raise e => Raise e
      | Return query_vector =>
          match comprehension (fun k => dict_item k family_features) keys with
          | Raise e => Raise e
          | Return family_vector =>
              Return (Some (name family,
                            dot_product query_vector family_vector
                            / (norm query_vector * norm family_vector)))
          end
      end
  end.

Fixpoint match_results (feats : Features) (fams : list Family) : list (string * R) :=
  match fams with
  | [] => []
  | family :: rest =>
      match family_similarity feats family with
      | Return (Some r) => r :: match_results feats rest
      | Return None => match_results feats rest
      | Raise _ => match_results feats rest
      end
  end.

(** [results.sort(key=lambda x: x[1], reverse=True)]: Python's sort is
    stable, also with [reverse=True]; the stable sort by descending score
    is written here as an insertion sort from the right. *)
Fixpoint insert_desc (x : string * R) (l : list (string * R)) : list (string * R) :=
  match l with
  | [] => [x]
  | y :: l' =>
      if Rle_dec (snd y) (snd x) then x :: y :: l' else y :: insert_desc x l'
  end.

Definition sort_desc (l : list (string * R)) : list (string * R) :=
  fold_right insert_desc [] l.

(** [l[:k]] for an [int] [k]: a negative [k] counts from the end. *)
Definition slice_to {A : Type} (k : Z) (l : list A) : list A :=
  if (0 <=? k)%Z then firstn (Z.to_nat k) l
  else firstn (List.length l - Z.to_nat (- k)) l.

Definition match_ (feats : Features) (topk : Z) : M Machine (list (string * R)) :=
  m <- get_state ;;
  match feats with
  | [] => ret []
  | _ :: _ =>
      ret (slice_to topk (sort_desc (match_results feats (families (db m)))))
  end.

(** ** [get_family_stats] *)

Record FamilyStat : Type := mkFamilyStat {
  stat_name : string;
  stat_sample_count : Z;
  stat_last_updated : option string
}.

Record Stats : Type := mkStats {
  total_families : nat;
  total_samples : Z;
  stat_families : list FamilyStat
}.

Definition count_of (f : Family) : Z :=
  match sample_count f with Some c => c | None => 0%Z end.

Definition get_family_stats : M Machine Stats :=
  m <- get_state ;;
  let fams := families (db m) in
  let total := fold_left Z.add (map count_of fams) 0%Z in
  ret (mkStats (List.length fams) total
         (map (fun f => mkFamilyStat (name f) (count_of f) (last_updated f)) fams)).

End Attribution.

(* ================================================================== *)
(** * The heuristic scorer ([src/models/detector.py]) *)

Module Detector.

Open Scope R_scope.
Open Scope string_scope.

(** A Python [float] as [score] computes with it: a number, or NaN,
    which every arithmetic operation hands on and on which none raises.
    The numbers are real numbers; rounding and the infinities are not
    modelled. *)
Inductive pyfloat : Type :=
| Float (x : R)
| NaN.

Definition lift1 (op : R -> R) (a : pyfloat) : pyfloat :=
  match a with
  | Float x => Float (op x)
  | NaN => NaN
  end.

Definition lift2 (op : R -> R -> R) (a b : pyfloat) : pyfloat :=
  match a, b with
  | Float x, Float y => Float (op x y)
  | _, _ => NaN
  end.

Definition fadd : pyfloat -> pyfloat -> pyfloat := lift2 Rplus.
Definition fsub : pyfloat -> pyfloat -> pyfloat := lift2 Rminus.
Definition fmul : pyfloat -> pyfloat -> pyfloat := lift2 Rmult.

(** Every divisor in [score] is a non-zero number or NaN. *)
Definition fdiv : pyfloat -> pyfloat -> pyfloat := lift2 Rdiv.
Definition fopp : pyfloat -> pyfloat := lift1 Ropp.

(** [np.exp] *)
Definition fexp : pyfloat -> pyfloat := lift1 exp.

(** Python's [<=] on floats: false as soon as one side is NaN. *)
Definition float_le (a b : pyfloat) : Prop :=
  match a, b with
  | Float x, Float y => x <= y
  | _, _ => False
  end.

Declare Scope float_scope.
Delimit Scope float_scope with float.
Infix "+" := fadd : float_scope.
Infix "-" := fsub : float_scope.
Infix "*" := fmul : float_scope.
Infix "/" := fdiv : float_scope.
Notation "- x" := (fopp x) : float_scope.

(** A value found in a feature mapping: a float that is a number, the
    float NaN, or something on which float arithmetic raises [TypeError]
    ([None], a [str], a [list]). *)
Inductive pyval : Type :=
| PyFloat (x : R)
| PyNaN
| PyOther.

Definition rbind {A B : Type} (r : result A) (k : A -> result B) : result B :=
  match r with Return a => k a | Raise e => Raise e end.

Notation "x <~ r ;; k" := (rbind r (fun x => k))
  (at level 61, r at next level, right associativity).

Definition weight (k : string) (weights : dict R) : result R :=
  match dict_get k weights with Some v => Return v | None => Raise KeyError end.

Definition feature (k : string) (feats : dict pyval) : result pyfloat :=
  match dict_get k feats with
  | Some (PyFloat x) => Return (Float x)
  | Some PyNaN => Return NaN
  | Some PyOther => Raise TypeError
  | None => Raise KeyError
  end.

(** [HEURISTIC_WEIGHTS] of [src/config.py] with no environment override. *)
Definition HEURISTIC_WEIGHTS : dict R :=
  [("fft_weight", 0.9); ("ela_weight", 0.6); ("lap_weight", 0.2);
   ("jpeg_weight", 0.15); ("threshold", 0.7); ("steepness", 4.0)].

(** [np.clip(s, lo, hi)] of a number, and of a float: NaN stays NaN. *)
Definition clip (s lo hi : R) : R := Rmin (Rmax s lo) hi.

Definition fclip (s : pyfloat) (lo hi : R) : pyfloat :=
  lift1 (fun x => clip x lo hi) s.

(** The weighted sum [x] of [score]. *)
Definition weighted_sum (weights : dict R) (feats : dict pyval) : result pyfloat :=
  w_fft <~ weight "fft_weight" weights ;;
  f_fft <~ feature "fft_high_ratio" feats ;;
  w_ela <~ weight "ela_weight" weights ;;
  f_ela <~ feature "ela_mean" feats ;;
  w_lap <~ weight "lap_weight" weights ;;
  f_lap <~ feature "lap_var" feats ;;
  w_jpeg <~ weight "jpeg_weight" weights ;;
  f_jpeg <~ feature "jpeg_score" feats ;;
  Return (Float w_fft * f_fft + Float w_ela * (f_ela / Float 50.0)
          + Float w_lap * (f_lap / Float 200.0) - Float w_jpeg * f_jpeg)%float.

(** The [try] block of [score]. *)
Definition score_body (weights : dict R) (feats : dict pyval) : result pyfloat :=
  x <~ weighted_sum weights feats ;;
  steepness <~ weight "steepness" weights ;;
  threshold <~ weight "threshold" weights ;;
  let s :=
    (Float 1.0 / (Float 1.0 + fexp (- Float steepness * (x - Float threshold))))%float in
  Return (fclip s 0.0 1.0).

Definition score (weights : dict R) (feats : dict pyval) : pyfloat :=
  match score_body weights feats with
  | Return s => s
  | Raise _ => Float 0.5
  end.

(** Concrete input used below: the feature vector of the repository's
    test with a NaN in place of the high-frequency ratio. *)
Definition nan_features : dict pyval :=
  [("ela_mean", PyFloat 15.0); ("fft_high_ratio", PyNaN);
   ("lap_var", PyFloat 150.0); ("jpeg_score", PyFloat 0.4)].

End Detector.

(* ================================================================== *)
(** * The quality gate ([src/ingest/filtering.py]) *)

Module Filtering.

Open Scope R_scope.

(** The two thresholds [accept_image] reads from [src/config.py]. *)
Record Config : Type := mkConfig {
  FACE_CONFIDENCE_THRESHOLD : R;
  QUALITY_MIN_SIDE : Z
}.

(** The defaults of [src/config.py]. *)
Definition default_config : Config := mkConfig 0.90 224.

(** The three notes; the f-strings of the source print the threshold
    after the tag:
    - [NoteMinSide m]      is [f"min_side<{m}"],
    - [NoteNoFace]         is ["no_face_found"],
    - [NoteLowFaceConf t]  is [f"low_face_conf<{t}"]. *)
Inductive note : Type :=
| NoteMinSide (min_side : Z)
| NoteNoFace
| NoteLowFaceConf (threshold : R).

Record QualityFlags : Type := mkQualityFlags {
  face_found : bool;
  face_conf : R;
  width : Z;
  height : Z;
  min_side_ok : bool;
  notes : list note
}.

(** [x < y] and [x >= y] on numbers.  The confidence is a number here: on
    a NaN both comparisons of the source are false. *)
Definition Rltb (x y : R) : bool := if Rlt_dec x y then true else false.
Definition Rgeb (x y : R) : bool := if Rge_dec x y then true else false.

(** [if min_side is None: min_side = QUALITY_MIN_SIDE] *)
Definition effective_min_side (cfg : Config) (min_side : option Z) : Z :=
  match min_side with Some m => m | None => QUALITY_MIN_SIDE cfg end.

Definition accept_image (cfg : Config) (found : bool) (conf : R) (w h : Z)
    (min_side : option Z) : bool * QualityFlags :=
  let min_side := effective_min_side cfg min_side in
  let notes0 : list note := [] in
  let side_ok := (min_side <=? Z.min w h)%Z in
  let notes1 := if negb side_ok then notes0 ++ [NoteMinSide min_side] else notes0 in
  let notes2 := if negb found then notes1 ++ [NoteNoFace] else notes1 in
  let notes3 :=
    if found && Rltb conf (FACE_CONFIDENCE_THRESHOLD cfg)
    then notes2 ++ [NoteLowFaceConf (FACE_CONFIDENCE_THRESHOLD cfg)]
    else notes2 in
  let accept := found && Rgeb conf (FACE_CONFIDENCE_THRESHOLD cfg) && side_ok in
  (accept, mkQualityFlags found conf w h side_ok notes3).

End Filtering.

(* ================================================================== *)
(** * Error level analysis ([src/utils/ela.py]) *)

Module Ela.

Open Scope R_scope.

(** A PIL image with 8-bit samples: one list of samples per band
    (three for ["RGB"], one for ["L"]), all of one length. *)
Record Image : Type := mkImage { bands : list (list Z) }.

(** [ImageChops.difference(a, b)]: the absolute value of the samplewise
    difference. *)
Definition difference (a b : Image) : Image :=
  mkImage
    (map (fun xy => map (fun pq => Z.abs (fst pq - snd pq)) (combine (fst xy) (snd xy)))
       (combine (bands a) (bands b))).

(** The second component of a band's [getextrema()] pair. *)
Definition band_max (b : list Z) : Z := fold_left Z.max b 0%Z.

(** [ImageEnhance.Brightness(im).enhance(255.0 / scale)]: the image is
    blended with a black one, so a sample [p] becomes [p * 255 / scale],
    truncated and cut to [0..255]. *)
Definition enhance_brightness (scale : Z) (im : Image) : Image :=
  mkImage (map (map (fun p => Z.min 255 (Z.max 0 (p * 255 / scale)))) (bands im)).

Definition samples (im : Image) : list Z := List.concat (bands im).

(** [float(np.mean(np.abs(np.asarray(im).astype("float32"))))] *)
Definition mean_abs (im : Image) : R :=
  IZR (fold_left Z.add (map Z.abs (samples im)) 0%Z) / INR (List.length (samples im)).

Section ErrorLevelAnalysis.

(** PIL's codec: [im.save(tmp, "JPEG", quality=quality)] followed by
    [Image.open(tmp)]. *)
Variable jpeg_roundtrip : Z -> Image -> result Image.

Definition error_level_analysis (im : Image) (quality : Z) : result (Image * R) :=
  match jpeg_roundtrip quality im with
  | Raise e => Raise e
  | Return recompressed =>
      let ela_img := difference im recompressed in
      match bands ela_img with
      | [_] =>
          (* [getextrema()] of a single band is one [(min, max)] pair, so
             [channel_extrema] is an [int] and [channel_extrema[1]] raises *)
          Raise TypeError
      | bs =>
          let scale := fold_left (fun s b => Z.max s (band_max b)) bs 1%Z in
          let ela_img :=
            if (0 <? scale)%Z then enhance_brightness scale ela_img else ela_img in
          Return (ela_img, mean_abs ela_img)
      end
  end.

End ErrorLevelAnalysis.

(** The quantity the docstring names [mean_abs_diff]: the mean absolute
    difference between the image and its re-encoded copy. *)
Definition mean_abs_diff (im recompressed : Image) : R :=
  mean_abs (difference im recompressed).

(** Concrete inputs used below. *)

(** One RGB pixel and a codec that moves its red sample by one. *)
Definition rgb_pixel : Image := mkImage [[10]; [10]; [10]]%Z.

Definition recompressed_pixel : Image := mkImage [[11]; [10]; [10]]%Z.

Definition shifting_codec (quality : Z) (im : Image) : result Image :=
  Return recompressed_pixel.

(** One grey pixel and a codec that returns it as it is. *)
Definition grey_pixel : Image := mkImage [[10]]%Z.

Definition lossless_codec (quality : Z) (im : Image) : result Image :=
  Return im.

End Ela.

(* ================================================================== *)
(** * The batch orchestrator ([src/api/batch_processor.py]) *)

Module Batch.

Open Scope string_scope.

Section Pool.

Variable Image : Type.

(** What a successful item reports besides its id: face_found,
    face_confidence, heuristic_score, features, torch_available,
    torch_probs. *)
Variable Payload : Type.

(** The [try] block of [_process_single_image]: face detection, heuristic
    analysis and torch prediction of one image. *)
Variable pipeline : Image -> result Payload.

(** [str(e)] *)
Variable str : exn -> string.

(** The identifier drawn for the [i]-th image: [str(uuid.uuid4())[:8]]. *)
Variable uuid4 : nat -> string.

(** An exception that a worker stores in the future of task [i] in place
    of the function's return value. *)
Variable worker_fault : nat -> option exn.

Inductive ItemResult : Type :=
| Success (id : string) (payload : Payload)
| Failure (id : string) (error : string).

Definition item_id (r : ItemResult) : string :=
  match r with Success i _ => i | Failure i _ => i end.

Definition _process_single_image (image_data : string * Image) : ItemResult :=
  let (image_id, image) := image_data in
  match pipeline image with
  | Return payload => Success image_id payload
  | Raise e => Failure image_id (str e)
  end.

(** What a finished future holds. *)
Inductive outcome : Type :=
| Returned (r : ItemResult)
| Raised (e : exn).

Definition run_task (i : nat) (data : string * Image) : outcome :=
  match worker_fault i with
  | Some e => Raised e
  | None => Returned (_process_single_image data)
  end.

(** The thread pool: [schedule] lists the task indices in the order in
    which the workers finish them; a finishing task fills its future. *)
Fixpoint run_pool (image_data : list (string * Image)) (schedule : list nat)
    (futures : list (option outcome)) : list (option outcome) :=
  match schedule with
  | [] => futures
  | i :: rest =>
      match nth_error image_data i with
      | Some data =>
          run_pool image_data rest (replace_nth i (Some (run_task i data)) futures)
      | None => run_pool image_data rest futures
      end
  end.

(** [asyncio.gather] over [tasks] with [return_exceptions=True]: resumes once
    every future is done, with the results in the order of [tasks];
    [None] when some future is never filled. *)
Fixpoint gather (futures : list (option outcome)) : option (list outcome) :=
  match futures with
  | [] => Some []
  | None :: _ => None
  | Some o :: rest =>
      match gather rest with
      | Some os => Some (o :: os)
      | None => None
      end
  end.

(** [[(str(uuid.uuid4())[:8], img) for img in images]], the first draw
    being number [k]. *)
Fixpoint assign_ids (k : nat) (images : list Image) : list (string * Image) :=
  match images with
  | [] => []
  | img :: rest => (uuid4 k, img) :: assign_ids (S k) rest
  end.

(** The loop over [enumerate(results)], from index [i];
    [image_data[i][0]] is the id of item [i]. *)
Fixpoint handle_results (image_data : list (string * Image)) (i : nat)
    (results : list outcome) : list ItemResult :=
  match results with
  | [] => []
  | Raised e :: rest =>
      Failure (nth i (map fst image_data) "") (str e)
      :: handle_results image_data (S i) rest
  | Returned r :: rest => r :: handle_results image_data (S i) rest
  end.

(** [process_batch]; [None] when the [await] never resumes. *)
Definition process_batch (images : list Image) (schedule : list nat)
  : option (list ItemResult) :=
  match images with
  | [] => Some []
  | _ :: _ =>
      let image_data := assign_ids 0 images in
      let futures :=
        run_pool image_data schedule (repeat None (List.length image_data)) in
      match gather futures with
      | None => None
      | Some results => Some (handle_results image_data 0 results)
      end
  end.

(** What the orchestrator owes for the image at index [i]: the outcome
    of that image's own pipeline under that image's own id. *)
Definition expected_result (i : nat) (image : Image) : ItemResult :=
  match worker_fault i with
  | Some e => Failure (uuid4 i) (str e)
  | None => _process_single_image (uuid4 i, image)
  end.

Fixpoint expected_results (k : nat) (images : list Image) : list ItemResult :=
  match images with
  | [] => []
  | img :: rest => expected_result k img :: expected_results (S k) rest
  end.

(** The outcomes of the tasks, in task order, the first being number [k]. *)
Fixpoint outcomes_from (k : nat) (image_data : list (string * Image)) : list outcome :=
  match image_data with
  | [] => []
  | d :: rest => run_task k d :: outcomes_from (S k) rest
  end.

(** Every future that is done holds the outcome of its own task. *)
Definition filled_correctly (image_data : list (string * Image))
    (futures : list (option outcome)) : Prop :=
  forall i o,
    nth_error futures i = Some (Some o) ->
    exists d, nth_error image_data i = Some d /\ o = run_task i d.

End Pool.

Arguments Success {Payload} id payload.
Arguments Failure {Payload} id error.
Arguments Returned {Payload} r.
Arguments Raised {Payload} e.

(** Concrete inputs used below: images are numbers, the pipeline fails on
    image 7, and the third task finishes first. *)

Definition toy_pipeline (image : nat) : result nat :=
  if Nat.eqb image 7 then Raise TypeError else Return (image * 2)%nat.

Definition toy_str (e : exn) : string := "error".

Definition toy_uuid4 (i : nat) : string :=
  match i with
  | O => "a3f1c2d4"
  | S O => "0b9e8f7a"
  | _ => "ffee0011"
  end.

Definition no_fault (i : nat) : option exn := None.

End Batch.

(* ================================================================== *)
(** * Cosine similarity over shared keys, as the specification words it *)

Module Cosine.

Import Attribution.

Open Scope R_scope.

(** The vector of a feature mapping restricted to [keys]. *)
Definition restricted (keys : list string) (d : Features) : list R :=
  map (fun k => dict_get_default k 0 d) keys.

(** Dot product divided by the product of the floored Euclidean norms. *)
Definition cosine (q f : list R) : R :=
  dot_product q f / (norm q * norm f).

(** The score of one family: none without shared keys, otherwise the
    cosine similarity of query and mean restricted to the shared keys. *)
Definition overlap_score (feats : Features) (family : Family) : option (string * R) :=
  let mean := match features_mean family with Some d => d | None => [] end in
  match common_keys feats mean with
  | [] => None
  | k :: keys =>
      Some (name family,
            cosine (restricted (k :: keys) feats) (restricted (k :: keys) mean))
  end.

(** The scores of the families that overlap the query, in storage order. *)
Definition scored (feats : Features) (fams : list Family) : list (string * R) :=
  flat_map (fun family =>
              match overlap_score feats family with
              | Some r => [r]
              | None => []
              end) fams.

Definition ge_score (a b : string * R) : Prop := snd a >= snd b.

Definition same_score (s : R) (p : string * R) : bool :=
  if Req_dec_T (snd p) s then true else false.

(** The sum of the squares of a mapping's values. *)
Definition squared_norm (d : Features) : R :=
  py_sum (map (fun x => x * x) (restricted (dict_keys d) d)).

(** Concrete inputs used below. *)

Definition zero_family : Machine :=
  mkMachine "data/fingerprints.json"%string
    (mkDatabase 1 [mkFamily "flat"%string (Some [("ela_mean"%string, 0)]) (Some 1%Z) None])
    (mkWorld (fun _ => Absent) (fun _ => false) (fun _ => []) (fun _ => NoFault) []).

Definition seeds : Machine :=
  mkMachine "data/fingerprints.json"%string default_db
    (mkWorld (fun _ => Absent) (fun _ => false) (fun _ => []) (fun _ => NoFault) []).

Definition unit_family : Machine :=
  mkMachine "data/fingerprints.json"%string
    (mkDatabase 1 [mkFamily "unit"%string (Some [("ela_mean"%string, 1)]) (Some 1%Z) None])
    (mkWorld (fun _ => Absent) (fun _ => false) (fun _ => []) (fun _ => NoFault) []).

End Cosine.

(* ================================================================== *)
(** * Runs of [add_sample] *)

Module Runs.

Import Attribution.

Open Scope R_scope.

(** Calling [add_sample] once per sample, in order, on one index. *)
Fixpoint add_samples (json_dump : Database -> string) (now : result string)
    (family_name : string) (samples : list Features) (m : Machine) : Machine :=
  match samples with
  | [] => m
  | s :: rest =>
      add_samples json_dump now family_name rest
        (snd (add_sample_in json_dump now family_name s m))
  end.

(** The family that the update branch of [add_sample] leaves in memory
    when its loop completes: the mean after the loop and the incremented
    count; the timestamp is set only if [now] evaluates. *)
Definition mean_of (f : Family) : Features :=
  match features_mean f with Some d => d | None => [] end.

Definition stepped (now : result string) (f : Family) (features : Features) : Family :=
  mkFamily (name f)
    (Some (fst (update_mean (count_of f) (mean_of f) features)))
    (Some (count_of f + 1)%Z)
    (match now with Return ts => Some ts | Raise _ => last_updated f end).

(** The mean reached by running the loop of [add_sample] once per sample,
    the count starting at [n]. *)
Fixpoint running_mean (n : Z) (current : Features) (samples : list Features)
  : Features :=
  match samples with
  | [] => current
  | s :: rest => running_mean (n + 1) (fst (update_mean n current s)) rest
  end.

(** The values that a sequence of samples contributes for one key. *)
Fixpoint contributed (k : string) (samples : list Features) : list R :=
  match samples with
  | [] => []
  | s :: rest =>
      match dict_get k s with
      | Some v => v :: contributed k rest
      | None => contributed k rest
      end
  end.

(** The arithmetic mean recomputed from the full history. *)
Definition arithmetic_mean (values : list R) : R :=
  fold_right Rplus 0 values / INR (List.length values).

(** Concrete inputs used below. *)

Definition dump0 (d : Database) : string := "{}"%string.

Definition load0 (s : string) : parsed := DecodeError.

(** An empty file system on which every write succeeds. *)
Definition empty_world : World :=
  mkWorld (fun _ => Absent) (fun _ => false) (fun _ => []) (fun _ => NoFault) [].

(** An empty file system on which [os.makedirs] raises, as it does for
    the empty directory name of a bare file name. *)
Definition readonly_world : World :=
  mkWorld (fun _ => Absent) (fun _ => false) (fun _ => [])
    (fun _ => MakedirsRaises) [].

(** A full disk that holds a damaged database: the file can be opened,
    and nothing can be written to it. *)
Definition full_disk_world : World :=
  mkWorld
    (fun q => if String.eqb q "data/fingerprints.json"%string
              then Text "{broken"%string else Absent)
    (fun d => String.eqb d "data"%string) (fun _ => [])
    (fun _ => DumpRaises 0) [].

Definition seeded (w : World) : Machine :=
  mkMachine "data/fingerprints.json"%string default_db w.

(** An index with one family that has seen one sample. *)
Definition one_family : Machine :=
  mkMachine "data/fingerprints.json"%string
    (mkDatabase 1 [mkFamily "fam"%string (Some [("x"%string, 0)]) (Some 1%Z) None])
    empty_world.

(** Two samples that carry a key the family has not seen before. *)
Definition late_key_samples : list Features :=
  [ [("y"%string, 4)]; [("y"%string, 1)] ].

(** Two samples that share the key [ela_mean]. *)
Definition ela_samples : list Features :=
  [ [("ela_mean"%string, 20)];
    [("ela_mean"%string, 10); ("lap_var"%string, 100)] ].

End Runs.

(* ================================================================== *)
(** * Which families a query can reach *)

Module Ranking.

Import Attribution.

Open Scope R_scope.

(** A family shares at least one key with the query. *)
Definition overlaps (feats : Features) (family : Family) : bool :=
  match common_keys feats (Runs.mean_of family) with
  | [] => false
  | _ :: _ => true
  end.

Definition overlapping (feats : Features) (fams : list Family) : list Family :=
  filter (overlaps feats) fams.

(** The sum of the sample counts, a missing count being 0. *)
Definition sum_counts (fams : list Family) : Z :=
  fold_right Z.add 0%Z (map count_of fams).

(** Every value of a feature mapping is non-negative. *)
Definition nonnegative (d : Features) : Prop :=
  Forall (fun kv => 0 <= snd kv) d.

(** Concrete inputs used below. *)

Definition echo_dump (d : Database) : string := "db"%string.

Definition echo_load (s : string) : parsed := Decoded default_db.

(** A family that a corrupted file left with sample count -1. *)
Definition stuck_family : Machine :=
  mkMachine "data/fingerprints.json"%string
    (mkDatabase 1
       [mkFamily "stuck"%string (Some [("ela_mean"%string, 5)]) (Some (-1)%Z) None])
    Runs.empty_world.

End Ranking.

(* ================================================================== *)
(** * Feature extraction and analysis ([src/models/detector.py]) *)

Module Extract.

Import Detector.

Open Scope R_scope.
Open Scope string_scope.

(** The vector [features] returns when an extractor raises. *)
Definition default_features : dict pyval :=
  [("ela_mean", PyFloat 0.0); ("fft_high_ratio", PyFloat 0.5);
   ("lap_var", PyFloat 100.0); ("jpeg_score", PyFloat 0.5)].

(** The dictionary [features] builds from the four extracted values. *)
Definition feature_vector (ela_mean fft_ratio lap_var jq : R) : dict pyval :=
  [("ela_mean", PyFloat ela_mean); ("fft_high_ratio", PyFloat fft_ratio);
   ("lap_var", PyFloat lap_var); ("jpeg_score", PyFloat jq)].

Section Features.

(** PIL's codec, used by [error_level_analysis]. *)
Variable jpeg_roundtrip : Z -> Ela.Image -> result Ela.Image.

(** The three extractors of [src/utils/frequency.py]; each runs numpy,
    OpenCV or PIL on the image and can raise. *)
Variable fft_highfreq_ratio : Ela.Image -> result R.
Variable laplacian_variance : Ela.Image -> result R.
Variable jpeg_quant_score : Ela.Image -> result R.

(** The [try] block of [features]. *)
Definition features_body (im : Ela.Image) : result (dict pyval) :=
  ela <~ Ela.error_level_analysis jpeg_roundtrip im 90 ;;
  fft_ratio <~ fft_highfreq_ratio im ;;
  lap_var <~ laplacian_variance im ;;
  jq <~ jpeg_quant_score im ;;
  Return (feature_vector (snd ela) fft_ratio lap_var jq).

Definition features (im : Ela.Image) : dict pyval :=
  match features_body im with
  | Return feats => feats
  | Raise _ => default_features
  end.

(** [analyze]: the pair of ["score"] and ["features"]. *)
Definition analyze (weights : dict R) (im : Ela.Image) : pyfloat * dict pyval :=
  let feats := features im in
  (score weights feats, feats).

End Features.

(** Concrete inputs used below. *)

Definition const_extractor (v : R) (im : Ela.Image) : result R := Return v.

End Extract.

(* ================================================================== *)
(** * The face detector ([src/models/face_detector.py]) *)

Module FaceDetector.

Open Scope R_scope.

(** [int(v)] of a float: truncation towards zero. *)
Definition py_int (v : R) : Z :=
  if Rle_dec 0 v then Int_part v else (- Int_part (- v))%Z.

(** [int(np.argmax(probs))]: the first index of the largest value;
    [None] for an empty array, where numpy raises. *)
Fixpoint argmax (probs : list R) : option nat :=
  match probs with
  | [] => None
  | p :: rest =>
      match argmax rest with
      | None => Some O
      | Some j => if Rlt_dec p (nth j rest 0) then Some (S j) else Some O
      end
  end.

Section Detector.

Variable Img : Type.
Variable width : Img -> Z.
Variable height : Img -> Z.

(** [pil_im.crop((x1, y1, x2, y2))] *)
Variable crop : Img -> Z * Z * Z * Z -> Img.

(** [self._available] and [self._mtcnn is not None], as [_initialize]
    left them. *)
Variable available : bool.

(** [self._mtcnn.detect(pil_im)]: the boxes ([None] when there is none)
    and their probabilities. *)
Variable mtcnn_detect : Img -> result (option (list (R * R * R * R)) * list R).

Definition detect_largest_face (pil_im : Img) : Img * bool * R :=
  if negb available then (pil_im, false, 0.0)
  else
    match mtcnn_detect pil_im with
    | Raise _ => (pil_im, false, 0.0)
    | Return (None, _) => (pil_im, false, 0.0)
    | Return (Some [], _) => (pil_im, false, 0.0)
    | Return (Some boxes, probs) =>
        match argmax probs with
        | None => (pil_im, false, 0.0)
        | Some best_i =>
            match nth_error boxes best_i, nth_error probs best_i with
            | Some (bx1, by1, bx2, by2), Some conf =>
                let x1 := Z.max 0 (py_int bx1) in
                let y1 := Z.max 0 (py_int by1) in
                let x2 := Z.min (width pil_im) (py_int bx2) in
                let y2 := Z.min (height pil_im) (py_int by2) in
                if ((x2 <=? x1) || (y2 <=? y1))%Z then (pil_im, false, 0.0)
                else (crop pil_im (x1, y1, x2, y2), true, conf)
            | _, _ => (pil_im, false, 0.0)
            end
        end
    end.

(** The call of [analyze] in [src/api/routes/analyze.py]: the quality
    gate applied to what the detector returns. *)
Definition detect_and_gate (cfg : Filtering.Config) (im : Img)
  : bool * Filtering.QualityFlags :=
  let '(face_im, face_found, face_conf) := detect_largest_face im in
  Filtering.accept_image cfg face_found face_conf (width face_im) (height face_im) None.

End Detector.

(** Concrete inputs used below: an image is its size, and a crop has the
    size of its box. *)

Definition size_crop (im : Z * Z) (box : Z * Z * Z * Z) : Z * Z :=
  let '(x1, y1, x2, y2) := box in ((x2 - x1)%Z, (y2 - y1)%Z).

Definition one_face (im : Z * Z) : result (option (list (R * R * R * R)) * list R) :=
  Return (Some [(10, 20, 300, 400)], [0.99]).

End FaceDetector.

(* ================================================================== *)
(** * The high-frequency ratio ([src/utils/frequency.py]) *)

Module Frequency.

Open Scope R_scope.

(** A slice bound of Python: a negative index counts from the end, and
    the result is cut to [0 .. len]. *)
Definition slice_index (i : Z) (len : nat) : nat :=
  if (i <? 0)%Z then Z.to_nat (Z.max 0 (i + Z.of_nat len))
  else Nat.min (Z.to_nat i) len.

(** [l[start:stop]] *)
Definition py_slice {A : Type} (start stop : Z) (l : list A) : list A :=
  let a := slice_index start (List.length l) in
  let b := slice_index stop (List.length l) in
  firstn (b - a) (skipn a l).

(** [a.sum()] of a one- and of a two-dimensional array. *)
Definition row_sum (row : list R) : R := fold_right Rplus 0 row.

Definition array_sum (a : list (list R)) : R := row_sum (map row_sum a).

(** A row of a magnitude spectrum: no entry is negative. *)
Definition nonneg_row (row : list R) : Prop := Forall (fun x => 0 <= x) row.

Section Fft.

Variable Img : Type.

(** [np.abs(np.fft.fftshift(np.fft.fft2(gray)))] of the image's
    intensities: the rows of the centred magnitude spectrum. *)
Variable magnitude : Img -> list (list R).

(** Over the reals [total] exceeds the sum of the spectrum; a binary64
    addition absorbs the [1e-8] once the sum is large. *)
Definition fft_highfreq_ratio (im : Img) (frac : R) : R :=
  let mag := magnitude im in
  let h := Z.of_nat (List.length mag) in
  let w := Z.of_nat (List.length (hd [] mag)) in
  let cy := (h / 2)%Z in
  let cx := (w / 2)%Z in
  let ry := FaceDetector.py_int (IZR h * frac / 2) in
  let rx := FaceDetector.py_int (IZR w * frac / 2) in
  let low :=
    array_sum (map (py_slice (cx - rx) (cx + rx)) (py_slice (cy - ry) (cy + ry) mag)) in
  let total := array_sum mag + 1e-8 in
  let high := total - low in
  high / total.

End Fft.

(** Concrete input used below: a 2 x 2 spectrum. *)
Definition small_spectrum (im : unit) : list (list R) := [[4; 1]; [1; 2]].

End Frequency.

(* ================================================================== *)
(** * File name sanitising ([src/utils/validation.py]) *)

Module Validation.

(** A Python [str] as the list of its code points. *)
Definition pystr : Type := list N.

Definition codes (s : string) : pystr :=
  map Ascii.N_of_ascii (list_ascii_of_string s).

(** [c.isalnum()] for an ASCII character: a digit or a letter. *)
Definition isalnum_ascii (c : N) : bool :=
  ((48 <=? c) && (c <=? 57) || (65 <=? c) && (c <=? 90)
   || (97 <=? c) && (c <=? 122))%N.

Section Sanitize.

(** [c.isalnum()] for the code points from 128 on, as the Unicode
    database of the interpreter decides it. *)
Variable isalnum_other : N -> bool.

Definition isalnum (c : N) : bool :=
  if (c <? 128)%N then isalnum_ascii c else isalnum_other c.

(** [os.path.basename(p)] on POSIX: what follows the last ['/']. *)
Definition basename (p : pystr) : pystr :=
  fold_left (fun acc c => if (c =? 47)%N then [] else acc ++ [c]) p [].

(** [c.isalnum() or c in "._-"] *)
Definition safe_char (c : N) : bool :=
  isalnum c || existsb (N.eqb c) (codes "._-").

Definition default_name : pystr := codes "uploaded_image.jpg".

Definition sanitize_filename (filename : pystr) : pystr :=
  let safe_name := filter safe_char (basename filename) in
  match safe_name with
  | [] => default_name
  | _ :: _ =>
      if (255 <? List.length safe_name)%nat then default_name else safe_name
  end.

End Sanitize.

End Validation.

(* ================================================================== *)
(** * The rate limiter ([src/api/rate_limiter.py]) *)

Module RateLimiter.

Open Scope R_scope.

(** [self.requests] is a [defaultdict(deque)]: a client that was never
    seen has the empty deque. *)
Record Limiter : Type := mkLimiter {
  max_requests : Z;
  window_seconds : Z;
  requests : string -> list R
}.

(** [RateLimiter(max_requests, window_seconds)] *)
Definition new_limiter (max_requests window_seconds : Z) : Limiter :=
  mkLimiter max_requests window_seconds (fun _ => []).

Definition set_requests (client_id : string) (q : list R) (l : Limiter) : Limiter :=
  mkLimiter (max_requests l) (window_seconds l)
    (fun c => if String.eqb c client_id then q else requests l c).

(** [while q and q[0] < cutoff: q.popleft()] *)
Fixpoint drop_old (cutoff : R) (q : list R) : list R :=
  match q with
  | [] => []
  | t :: rest => if Rlt_dec t cutoff then drop_old cutoff rest else q
  end.

Definition _cleanup_old_requests (client_id : string) (current_time : R)
    (l : Limiter) : Limiter :=
  let cutoff := current_time - IZR (window_seconds l) in
  set_requests client_id (drop_old cutoff (requests l client_id)) l.

(** [HTTPException(status_code=...)] *)
Inductive http_error : Type := HTTPException (status_code : Z).

(** [check_rate_limit], [client_id] being what [_get_client_id(request)]
    returns and [current_time] what [time.time()] returns. *)
Definition check_rate_limit (client_id : string) (current_time : R) (l : Limiter)
  : (http_error + bool) * Limiter :=
  let l1 := _cleanup_old_requests client_id current_time l in
  let request_count := Z.of_nat (List.length (requests l1 client_id)) in
  if (max_requests l1 <=? request_count)%Z
  then (inl (HTTPException 429), l1)
  else (inr true,
        set_requests client_id (requests l1 client_id ++ [current_time]) l1).

(** A sequence of requests, each with its client and its time; the log
    collects the requests that were let through. *)
Fixpoint serve (events : list (string * R)) (l : Limiter) (log : list (string * R))
  : Limiter * list (string * R) :=
  match events with
  | [] => (l, log)
  | (client_id, current_time) :: rest =>
      match check_rate_limit client_id current_time l with
      | (inr _, l') => serve rest l' (log ++ [(client_id, current_time)])
      | (inl _, l') => serve rest l' log
      end
  end.

(** The requests of [client_id] in [log] that are not older than
    [cutoff]. *)
Definition recent (client_id : string) (cutoff : R) (log : list (string * R))
  : list (string * R) :=
  filter (fun e => String.eqb (fst e) client_id
                   && (if Rlt_dec (snd e) cutoff then false else true)) log.

(** No deque is longer than the limit allows. *)
Definition bounded (l : Limiter) : Prop :=
  forall client_id,
    (Z.of_nat (List.length (requests l client_id)) <= Z.max 0 (max_requests l))%Z.

(** The times of the requests of [client_id] in [log]. *)
Definition times_of (client_id : string) (log : list (string * R)) : list R :=
  map snd (filter (fun e => String.eqb (fst e) client_id) log).

(** The deque of each client holds the times of its logged requests, the
    oldest first, without those that were dropped; the dropped ones are
    older than the window that ends at [T], the kept ones are in
    ascending order and not later than [T]. *)
Definition tracks (l : Limiter) (log : list (string * R)) (T : R) : Prop :=
  forall client_id, exists old,
    times_of client_id log = (old ++ requests l client_id)%list /\
    Forall (fun x => x < T - IZR (window_seconds l)) old /\
    StronglySorted Rle (requests l client_id) /\
    Forall (fun x => x <= T) (requests l client_id).

End RateLimiter.

(* ================================================================== *)
(** * Properties of dictionaries and of the monad *)

Section DictFacts.

Variable V : Type.

Lemma dict_get_set_same (k : string) (v : V) (d : dict V) :
  dict_get k (dict_set k v d) = Some v.
Proof.
  induction d as [|[k' v'] d IH]; simpl.
  - now rewrite String.eqb_refl.
  - destruct (String.eqb k k') eqn:E; simpl; rewrite E; auto.
Qed.

Lemma dict_get_set_other (k k0 : string) (v : V) (d : dict V) :
  k <> k0 -> dict_get k (dict_set k0 v d) = dict_get k d.
Proof.
  intros Hne. induction d as [|[k' v'] d IH]; simpl.
  - apply String.eqb_neq in Hne. now rewrite Hne.
  - destruct (String.eqb k0 k') eqn:E; simpl.
    + apply String.eqb_eq in E. subst k'.
      apply String.eqb_neq in Hne. now rewrite Hne.
    + now rewrite IH.
Qed.

Lemma dict_get_key (k : string) (d : dict V) :
  In k (dict_keys d) -> exists v, dict_get k d = Some v.
Proof.
  induction d as [|[k' v'] d IH]; simpl; intros Hin; [contradiction|].
  destruct (String.eqb k k') eqn:E; eauto.
  destruct Hin as [->|Hin]; auto.
  now rewrite String.eqb_refl in E.
Qed.

End DictFacts.

Lemma replace_nth_length (A : Type) (i : nat) (x : A) (l : list A) :
  List.length (replace_nth i x l) = List.length l.
Proof.
  revert i; induction l as [|y l IH]; intros [|i]; simpl; auto.
Qed.

Lemma nth_error_replace_nth_same (A : Type) (i : nat) (x : A) (l : list A) :
  (i < List.length l)%nat -> nth_error (replace_nth i x l) i = Some x.
Proof.
  revert i; induction l as [|y l IH]; intros [|i] H; simpl in *; try lia; auto.
  apply IH. lia.
Qed.

Lemma nth_error_replace_nth_other (A : Type) (i j : nat) (x : A) (l : list A) :
  i <> j -> nth_error (replace_nth i x l) j = nth_error l j.
Proof.
  revert i j; induction l as [|y l IH]; intros [|i] [|j] H; simpl in *;
    try congruence; auto.
Qed.

Lemma replace_nth_same (A : Type) (i : nat) (x : A) (l : list A) :
  nth_error l i = Some x -> replace_nth i x l = l.
Proof.
  revert i; induction l as [|y l IH]; intros [|i] H; simpl in *; auto.
  - now inversion H.
  - now rewrite IH.
Qed.

Lemma replace_nth_twice (A : Type) (i : nat) (x y : A) (l : list A) :
  replace_nth i x (replace_nth i y l) = replace_nth i x l.
Proof.
  revert i; induction l as [|z l IH]; intros [|i]; simpl; auto.
  now rewrite IH.
Qed.

(* ================================================================== *)
(** * Properties of the attribution index *)

Section AttributionFacts.

Import Attribution.
Import Runs.

Open Scope R_scope.

Variable json_load : string -> parsed.
Variable json_dump : Database -> string.

(** [_save] never raises, leaves [self] alone and records one attempt. *)
Lemma save_spec (m : Machine) :
  _save json_dump m =
    (Return tt,
     mkMachine (path m) (db m)
       (after_save (world m) (path m) (json_dump (db m)))).
Proof.
  unfold _save, try_except, bind, get_state, makedirs_for, open_and_dump,
    after_save, ret.
  cbn. destruct (write_fault (world m) (path m)) eqn:Hfault; cbn;
    rewrite ?Hfault; reflexivity.
Qed.

Lemma find_family_name (nm : string) (fs : list Family) (i : nat) (f : Family) :
  find_family nm fs = Some (i, f) -> name f = nm /\ nth_error fs i = Some f.
Proof.
  revert i; induction fs as [|g fs IH]; simpl; intros i H; [discriminate|].
  destruct (String.eqb (name g) nm) eqn:E.
  - inversion H; subst. apply String.eqb_eq in E. auto.
  - destruct (find_family nm fs) as [[j h]|] eqn:F; [|discriminate].
    inversion H; subst. destruct (IH j eq_refl) as [H1 H2]. auto.
Qed.

Lemma find_family_replace (nm : string) (fs : list Family) (i : nat)
    (f f' : Family) :
  find_family nm fs = Some (i, f) -> name f' = name f ->
  find_family nm (replace_nth i f' fs) = Some (i, f').
Proof.
  revert i; induction fs as [|g fs IH]; simpl; intros i H Hn; [discriminate|].
  destruct (String.eqb (name g) nm) eqn:E.
  - inversion H; subst. simpl. rewrite Hn, E. reflexivity.
  - destruct (find_family nm fs) as [[j h]|] eqn:F; [|discriminate].
    inversion H; subst. simpl. rewrite E. rewrite (IH j eq_refl Hn). reflexivity.
Qed.

Lemma find_family_none (nm : string) (fs : list Family) :
  find_family nm fs = None <-> ~ In nm (map name fs).
Proof using.
  induction fs as [|g fs IH]; simpl.
  - split; auto.
  - destruct (String.eqb (name g) nm) eqn:E.
    + apply String.eqb_eq in E. split; [discriminate|]. intros H. exfalso. auto.
    + apply String.eqb_neq in E.
      destruct (find_family nm fs) as [[j h]|].
      * split; [discriminate|]. intros H. exfalso.
        assert (Hc : Some (j, h) = None)
          by (apply IH; intros Hin; apply H; right; exact Hin).
        discriminate Hc.
      * split; auto. intros _ [H|H]; [contradiction|]. now apply IH.
Qed.

(** ** The loop of [add_sample] *)

Lemma update_mean_completes (n : Z) (features current : Features) :
  (n + 1 <> 0)%Z -> snd (update_mean n current features) = Return tt.
Proof.
  intros Hn. revert current.
  induction features as [|[key value] rest IH]; intros current; simpl; auto.
  destruct (dict_get key current).
  - destruct (Z.eqb_spec (n + 1) 0); [contradiction|]. apply IH.
  - apply IH.
Qed.

Lemma update_mean_other (n : Z) (features current : Features) (k : string) :
  ~ In k (dict_keys features) ->
  dict_get k (fst (update_mean n current features)) = dict_get k current.
Proof.
  revert current.
  induction features as [|[key value] rest IH]; intros current Hk; simpl; auto.
  simpl in Hk.
  assert (Hne : k <> key) by (intros ->; apply Hk; now left).
  assert (Hrest : ~ In k (dict_keys rest)) by (intros H; apply Hk; now right).
  destruct (dict_get key current).
  - destruct (n + 1 =? 0)%Z; simpl; auto.
    rewrite IH by assumption. now apply dict_get_set_other.
  - rewrite IH by assumption. now apply dict_get_set_other.
Qed.

Lemma update_mean_get (n : Z) (features current : Features) (k : string) :
  NoDup (dict_keys features) -> (n + 1 <> 0)%Z ->
  dict_get k (fst (update_mean n current features)) =
    match dict_get k features with
    | Some v =>
        Some (match dict_get k current with
              | Some old => old + (v - old) / IZR (n + 1)
              | None => v
              end)
    | None => dict_get k current
    end.
Proof.
  intros Hnd Hn. revert current.
  induction features as [|[key value] rest IH]; intros current; simpl; auto.
  simpl in Hnd. inversion Hnd as [|? ? Hnotin Hnd']; subst.
  destruct (String.eqb k key) eqn:E.
  - apply String.eqb_eq in E. subst key.
    destruct (dict_get k current) as [old|].
    + destruct (Z.eqb_spec (n + 1) 0); [contradiction|].
      rewrite update_mean_other by assumption. apply dict_get_set_same.
    + rewrite update_mean_other by assumption. apply dict_get_set_same.
  - assert (Hne : k <> key) by (now apply String.eqb_neq).
    destruct (dict_get key current) as [old|].
    + destruct (Z.eqb_spec (n + 1) 0); [contradiction|].
      rewrite IH by assumption. now rewrite dict_get_set_other.
    + rewrite IH by assumption. now rewrite dict_get_set_other.
Qed.

(** ** One call of [add_sample] *)

Lemma add_sample_absent (now : result string) (nm : string)
    (features : Features) (m : Machine) :
  find_family nm (families (db m)) = None ->
  add_sample_in json_dump now nm features m =
    match now with
    | Raise _ => (Return false, m)
    | Return ts =>
        (Return true,
         snd (_save json_dump
                (mkMachine (path m)
                   (mkDatabase (version (db m))
                      (families (db m)
                       ++ [mkFamily nm (Some features) (Some 1%Z) (Some ts)]))
                   (world m))))
    end.
Proof.
  intros Hf.
  unfold add_sample_in, try_except, bind, add_sample_body, get_state.
  cbn. rewrite Hf. destruct now as [ts|e]; cbn.
  - rewrite save_spec. reflexivity.
  - reflexivity.
Qed.

Lemma add_sample_present (now : result string) (nm : string)
    (features : Features) (m : Machine) (i : nat) (f : Family) :
  find_family nm (families (db m)) = Some (i, f) ->
  (count_of f + 1 <> 0)%Z ->
  add_sample_in json_dump now nm features m =
    let m' := mkMachine (path m)
                (mkDatabase (version (db m))
                   (replace_nth i (stepped now f features) (families (db m))))
                (world m) in
    match now with
    | Raise _ => (Return false, m')
    | Return _ => (Return true, snd (_save json_dump m'))
    end.
Proof.
  intros Hf Hn.
  pose proof (@update_mean_completes (count_of f) features (mean_of f) Hn) as Hc.
  unfold add_sample_in, try_except, bind, add_sample_body, get_state.
  cbn. rewrite Hf. unfold stepped, count_of, mean_of in *.
  destruct (update_mean
              match sample_count f with Some c => c | None => 0%Z end
              match features_mean f with Some d => d | None => [] end
              features) as [current' looped] eqn:Hu.
  simpl in Hc. subst looped.
  destruct (features_mean f) as [d|]; destruct now as [ts|e]; simpl;
    try rewrite save_spec; reflexivity.
Qed.

Lemma add_sample_body_frame (now : result string) (nm : string)
    (features : Features) (m : Machine) :
  world (snd (add_sample_body now nm features m)) = world m /\
  path (snd (add_sample_body now nm features m)) = path m.
Proof.
  unfold add_sample_body, bind, get_state. cbn.
  destruct (find_family nm (families (db m))) as [[i f]|].
  - destruct (update_mean _ _ features) as [current' looped].
    destruct (features_mean f); destruct looped; destruct now; cbn; auto.
  - destruct now; cbn; auto.
Qed.

(** C1 (what the code does): [add_sample] for a family name that the
    database does not hold returns [False] and leaves the index and the
    file system exactly as they were: building the new family evaluates
    [datetime.now()], which raises [NameError] before the family is
    appended.  So after any number of calls with one vector the family
    still does not exist. *)
Theorem add_sample_unknown_family_fails (nm : string) (features : Features)
    (m : Machine) :
  ~ In nm (map name (families (db m))) ->
  add_sample json_dump nm features m = (Return false, m) /\
  forall k,
    add_samples json_dump datetime_now_isoformat nm (repeat features k) m = m.
Proof using json_dump.
  intros Hf. apply find_family_none in Hf.
  assert (H1 : add_sample json_dump nm features m = (Return false, m)).
  { unfold add_sample, datetime_now_isoformat. now rewrite add_sample_absent. }
  split; [exact H1|].
  induction k as [|k IH]; simpl; [reflexivity|].
  unfold add_sample in H1. rewrite H1. exact IH.
Qed.

(** C10: [all_families], [match] and [get_family_stats] return without
    raising and leave the machine (path, database with its families,
    means, counts and timestamps, and the file system) as it was. *)
Theorem queries_leave_index_unchanged (m : Machine) (feats : Features) (topk : Z) :
  (snd (all_families m) = m /\ exists r, fst (all_families m) = Return r) /\
  (snd (match_ feats topk m) = m /\ exists r, fst (match_ feats topk m) = Return r) /\
  (snd (get_family_stats m) = m /\ exists r, fst (get_family_stats m) = Return r).
Proof.
  unfold all_families, match_, get_family_stats, bind, get_state, ret.
  repeat split; cbn; eauto; destruct feats; cbn; eauto.
Qed.

(** ** Construction *)

(** C3 (amended): when the file is missing, unreadable or its text does
    not decode to a database, construction returns without raising, the
    index holds exactly the three seed families with their prior means and
    sample count 0, and one write of the serialised default database was
    attempted.  The file holds it when no step of the write raises.  When
    [os.makedirs] or [open] raises the file is as it was; when the write
    raises after [open], the file holds the part of the text that was
    written, possibly none.  No other file is touched, and the
    directories that [os.makedirs] made stay. *)
Theorem init_falls_back_to_defaults (p : string) (w : World) :
  (forall s d, files w p = Text s -> json_load s <> Decoded d) ->
  exists m,
    init json_load json_dump p w = (Return tt, m) /\
    path m = p /\
    db m = default_db /\
    map name (families (db m)) =
      ["faceswap_blend"; "diffusion_inpaint"; "stylegan_family"]%string /\
    Forall (fun f => sample_count f = Some 0%Z /\ last_updated f = None)
      (families (db m)) /\
    (forall q, q <> p -> files (world m) q = files w q) /\
    (forall d, dirs (world m) d
               = dirs w d || existsb (String.eqb d) (makedirs_makes w p)) /\
    match write_fault w p with
    | NoFault =>
        files (world m) p = Text (json_dump default_db) /\
        io_trace (world m) = IoWrite p (json_dump default_db) :: io_trace w
    | MakedirsRaises | OpenRaises =>
        files (world m) p = files w p /\
        io_trace (world m) = IoWriteFailed p :: io_trace w
    | DumpRaises written =>
        files (world m) p = Text (substring 0 written (json_dump default_db)) /\
        io_trace (world m) = IoWriteFailed p :: io_trace w
    end.
Proof.
  intros Hbad.
  assert (Hinit : init json_load json_dump p w =
                  _save json_dump (mkMachine p default_db w)).
  { unfold init, _load, try_except, bind, get_state. cbn.
    destruct (files w p) as [| |s] eqn:Hfile; cbn.
    - rewrite save_spec. reflexivity.
    - reflexivity.
    - destruct (json_load s) as [d| |] eqn:Hload; cbn; try reflexivity.
      exfalso. exact (Hbad s d eq_refl Hload). }
  rewrite Hinit, save_spec. cbn [path db world].
  eexists. split; [reflexivity|]. cbn [path db world].
  split; [reflexivity|]. split; [reflexivity|]. split; [reflexivity|].
  split; [repeat constructor|].
  assert (Hother : forall q st, q <> p -> (if String.eqb q p then st else files w q) = files w q).
  { intros q st Hq. destruct (String.eqb_spec q p); [contradiction|reflexivity]. }
  unfold after_save.
  destruct (write_fault w p); cbn [files dirs io_trace];
    (split; [intros q Hq; try reflexivity; now apply Hother|]);
    (split; [reflexivity|]);
    rewrite ?String.eqb_refl; split; reflexivity.
Qed.

(** ** The boundary of [add_sample] *)

Lemma add_sample_in_cases (now : result string) (nm : string)
    (features : Features) (m : Machine) :
  add_sample_in json_dump now nm features m =
    match add_sample_body now nm features m with
    | (Return _, m1) => (Return true, snd (_save json_dump m1))
    | (Raise _, m1) => (Return false, m1)
    end.
Proof.
  unfold add_sample_in, try_except, bind.
  destruct (add_sample_body now nm features m) as [[[]|e] m1]; cbn.
  - rewrite save_spec. reflexivity.
  - reflexivity.
Qed.

(** C9 (what the code does): [add_sample] never raises, and it never
    succeeds.  Both branches evaluate [datetime.now()], a name the module
    does not bind, before the save is reached, so every call returns
    [False] and no write is attempted: the world, with its files and its
    trace of write attempts, is as it was.  For an unknown family nothing
    changes at all.  For a stored family whose count is not -1 the mean
    and the incremented count were assigned before the failure and stay
    in memory; nothing is rolled back. *)
Theorem add_sample_boundary (nm : string) (features : Features) (m : Machine) :
  let r := add_sample json_dump nm features m in
  fst r = Return false /\
  path (snd r) = path m /\
  world (snd r) = world m /\
  io_trace (world (snd r)) = io_trace (world m) /\
  (find_family nm (families (db m)) = None -> snd r = m) /\
  (forall i f,
     find_family nm (families (db m)) = Some (i, f) ->
     (count_of f + 1 <> 0)%Z ->
     families (db (snd r))
     = replace_nth i (stepped datetime_now_isoformat f features) (families (db m)) /\
     sample_count (stepped datetime_now_isoformat f features)
     = Some (count_of f + 1)%Z /\
     last_updated (stepped datetime_now_isoformat f features) = last_updated f).
Proof using json_dump.
  intros r. subst r. unfold add_sample.
  pose proof (add_sample_body_frame datetime_now_isoformat nm features m)
    as [Hw Hp].
  assert (Hraise : exists e m1,
            add_sample_body datetime_now_isoformat nm features m = (Raise e, m1)).
  { unfold add_sample_body, bind, get_state, datetime_now_isoformat. cbn.
    destruct (find_family nm (families (db m))) as [[i f]|]; cbn; [|eauto].
    destruct (update_mean _ _ features) as [current' looped].
    destruct (features_mean f); destruct looped; cbn; eauto. }
  destruct Hraise as (e & m1 & Hbody).
  rewrite add_sample_in_cases.
  rewrite Hbody in Hw, Hp |- *. cbn [fst snd] in *.
  split; [reflexivity|]. split; [exact Hp|]. split; [exact Hw|].
  split; [now rewrite Hw|].
  split.
  - intros Hnone.
    pose proof (add_sample_absent datetime_now_isoformat nm features m Hnone) as Ha.
    rewrite add_sample_in_cases, Hbody in Ha. cbn in Ha. now inversion Ha.
  - intros i f Hf Hn.
    pose proof (add_sample_present datetime_now_isoformat nm features m Hf Hn) as Ha.
    rewrite add_sample_in_cases, Hbody in Ha. cbn in Ha. inversion Ha; subst.
    repeat split.
Qed.

(** ** Sequences of calls *)

Lemma stepped_all_count (now : result string) (samples : list Features) (f : Family) :
  count_of (fold_left (stepped now) samples f)
  = (count_of f + Z.of_nat (List.length samples))%Z.
Proof.
  revert f; induction samples as [|s rest IH]; intros f; simpl fold_left.
  - simpl. lia.
  - rewrite IH. change (count_of (stepped now f s)) with (count_of f + 1)%Z.
    simpl List.length. lia.
Qed.

Lemma stepped_all_name (now : result string) (samples : list Features) (f : Family) :
  name (fold_left (stepped now) samples f) = name f.
Proof.
  revert f; induction samples as [|s rest IH]; intros f; simpl; auto.
  now rewrite IH.
Qed.

Lemma stepped_all_mean (now : result string) (samples : list Features) (f : Family) :
  mean_of (fold_left (stepped now) samples f)
  = running_mean (count_of f) (mean_of f) samples.
Proof.
  revert f; induction samples as [|s rest IH]; intros f; simpl; [reflexivity|].
  rewrite IH. reflexivity.
Qed.

Lemma stepped_all_sample_count (now : result string) (samples : list Features)
    (f : Family) :
  samples <> [] ->
  sample_count (fold_left (stepped now) samples f)
  = Some (count_of f + Z.of_nat (List.length samples))%Z.
Proof.
  intros Hne. rewrite <- stepped_all_count with (now := now).
  destruct samples as [|s rest]; [contradiction|].
  clear Hne. revert s f. induction rest as [|s' rest IH]; intros s f.
  - reflexivity.
  - change (fold_left (stepped now) (s :: s' :: rest) f)
      with (fold_left (stepped now) (s' :: rest) (stepped now f s)).
    apply IH.
Qed.

Lemma add_samples_families (now : result string) (nm : string)
    (samples : list Features) (m : Machine) (i : nat) (f : Family) :
  find_family nm (families (db m)) = Some (i, f) ->
  (0 <= count_of f)%Z ->
  families (db (add_samples json_dump now nm samples m))
  = replace_nth i (fold_left (stepped now) samples f) (families (db m)).
Proof.
  revert m f. induction samples as [|s rest IH]; intros m f Hf Hn; simpl.
  - symmetry. apply replace_nth_same.
    pose proof (@find_family_name nm _ _ _ Hf) as [_ Hnth]. exact Hnth.
  - assert (Hn1 : (count_of f + 1 <> 0)%Z) by lia.
    assert (Hstep : families (db (snd (add_sample_in json_dump now nm s m)))
                    = replace_nth i (stepped now f s) (families (db m))).
    { rewrite (add_sample_present now nm s m Hf Hn1).
      destruct now; cbn; [rewrite save_spec|]; reflexivity. }
    set (m1 := snd (add_sample_in json_dump now nm s m)) in *.
    assert (Hf1 : find_family nm (families (db m1)) = Some (i, stepped now f s)).
    { rewrite Hstep. now apply find_family_replace with (f := f). }
    rewrite (IH m1 (stepped now f s) Hf1).
    + rewrite Hstep. apply replace_nth_twice.
    + change (count_of (stepped now f s)) with (count_of f + 1)%Z. lia.
Qed.

(** ** The running mean of one key *)

Lemma contributed_length (k : string) (samples : list Features) :
  Forall (fun s => dict_mem k s = true) samples ->
  List.length (contributed k samples) = List.length samples.
Proof.
  induction 1 as [|s rest Hs _ IH]; simpl; auto.
  unfold dict_mem in Hs. destruct (dict_get k s); [|discriminate].
  simpl. now rewrite IH.
Qed.

Lemma running_mean_invariant (k : string) (samples : list Features) :
  Forall (fun s => NoDup (dict_keys s) /\ dict_mem k s = true) samples ->
  forall (n : Z) (current : Features) (total : R),
    ((n = 0)%Z /\ total = 0 \/
     (0 < n)%Z /\ exists mu, dict_get k current = Some mu /\ mu * IZR n = total) ->
    samples <> [] ->
    exists mu,
      dict_get k (running_mean n current samples) = Some mu /\
      mu * IZR (n + Z.of_nat (List.length samples))
      = total + fold_right Rplus 0 (contributed k samples).
Proof.
  induction 1 as [|s rest [Hnd Hmem] _ IH]; intros n current total Hinv Hne;
    [contradiction|].
  unfold dict_mem in Hmem.
  destruct (dict_get k s) as [v|] eqn:Hv; [clear Hmem|discriminate].
  assert (Hn : (0 <= n)%Z) by (destruct Hinv as [[-> _]|[H _]]; lia).
  assert (Hn1 : (n + 1 <> 0)%Z) by lia.
  pose proof (@update_mean_get n s current k Hnd Hn1) as Hget.
  rewrite Hv in Hget.
  set (current1 := fst (update_mean n current s)) in *.
  assert (Hinv1 : exists mu1, dict_get k current1 = Some mu1 /\
                              mu1 * IZR (n + 1) = total + v).
  { rewrite Hget. eexists; split; [reflexivity|].
    rewrite plus_IZR.
    destruct Hinv as [[-> ->]|[Hpos (mu & Hmu & Htot)]].
    - simpl. destruct (dict_get k current); field.
    - rewrite Hmu. rewrite <- Htot.
      assert (IZR n + 1 <> 0) by (apply IZR_lt in Hpos; lra).
      field. assumption. }
  simpl running_mean. fold current1.
  simpl contributed. rewrite Hv. simpl fold_right.
  destruct Hinv1 as (mu1 & Hm & Ht).
  destruct rest as [|s' rest'].
  - simpl. exists mu1. split; auto.
    replace (n + 1)%Z with (n + 1)%Z in Ht by lia. rewrite Ht. lra.
  - destruct (IH (n + 1)%Z current1 (total + v)) as (mu & Hmu & Hsum).
    + right. split; [lia|]. eauto.
    + discriminate.
    + exists mu. split; [exact Hmu|].
      rewrite <- Rplus_assoc, <- Hsum. f_equal. f_equal.
      cbn [List.length]. lia.
Qed.

Lemma running_mean_from_zero (k : string) (samples : list Features)
    (current : Features) :
  Forall (fun s => NoDup (dict_keys s) /\ dict_mem k s = true) samples ->
  samples <> [] ->
  dict_get k (running_mean 0 current samples)
  = Some (arithmetic_mean (contributed k samples)).
Proof.
  intros Hall Hne.
  destruct (@running_mean_invariant k samples Hall 0%Z current 0) as (mu & Hmu & Hsum);
    auto.
  rewrite Hmu. f_equal. unfold arithmetic_mean.
  rewrite contributed_length
    by (eapply Forall_impl; [|exact Hall]; now intros s [_ H]).
  rewrite Rplus_0_l in Hsum. rewrite <- Hsum.
  rewrite INR_IZR_INZ. simpl (0 + _)%Z.
  assert (IZR (Z.of_nat (List.length samples)) <> 0).
  { apply not_0_IZR. destruct samples; [contradiction|]. simpl. lia. }
  field. assumption.
Qed.

(** C4 (amended): for an existing family with sample count [n >= 0],
    one call of [add_sample] leaves in memory, whatever it returns, a
    family of the same name with count [n + 1] in which every key of the
    sample that the mean already had is [old + (value - old) / (n + 1)],
    every key only the sample has is inserted as it is, every other key
    is unchanged, and no other family is touched.  For a family whose
    count is [0], after any non-empty sequence of samples the count is the
    number of samples and every key that occurs in all of them has the
    arithmetic mean of its contributed values. *)
Theorem add_sample_running_mean (now : result string) (nm : string)
    (m : Machine) (i : nat) (f : Family) :
  find_family nm (families (db m)) = Some (i, f) ->
  (0 <= count_of f)%Z ->
  (forall features,
     NoDup (dict_keys features) ->
     exists f',
       find_family nm
         (families (db (snd (add_sample_in json_dump now nm features m))))
       = Some (i, f') /\
       name f' = name f /\
       sample_count f' = Some (count_of f + 1)%Z /\
       (forall k,
          dict_get k (mean_of f') =
            match dict_get k features with
            | Some v =>
                Some (match dict_get k (mean_of f) with
                      | Some old => old + (v - old) / IZR (count_of f + 1)
                      | None => v
                      end)
            | None => dict_get k (mean_of f)
            end) /\
       (forall j, j <> i ->
          nth_error (families (db (snd (add_sample_in json_dump now nm features m)))) j
          = nth_error (families (db m)) j)) /\
  (count_of f = 0%Z ->
   forall samples k,
     samples <> [] ->
     Forall (fun s => NoDup (dict_keys s) /\ dict_mem k s = true) samples ->
     exists f',
       find_family nm (families (db (add_samples json_dump now nm samples m)))
       = Some (i, f') /\
       sample_count f' = Some (Z.of_nat (List.length samples)) /\
       dict_get k (mean_of f') = Some (arithmetic_mean (contributed k samples))).
Proof.
  intros Hf Hn. split.
  - intros features Hnd.
    assert (Hn1 : (count_of f + 1 <> 0)%Z) by lia.
    assert (Hstep : families (db (snd (add_sample_in json_dump now nm features m)))
                    = replace_nth i (stepped now f features) (families (db m))).
    { rewrite (add_sample_present now nm features m Hf Hn1).
      destruct now; cbn; [rewrite save_spec|]; reflexivity. }
    exists (stepped now f features). rewrite Hstep.
    split; [now apply find_family_replace with (f := f)|].
    split; [reflexivity|]. split; [reflexivity|]. split.
    + intros k. apply update_mean_get; assumption.
    + intros j Hj. apply nth_error_replace_nth_other. congruence.
  - intros H0 samples k Hne Hall.
    exists (fold_left (stepped now) samples f).
    rewrite (add_samples_families now nm samples m Hf Hn).
    split; [|split].
    + apply find_family_replace with (f := f); [assumption|].
      apply stepped_all_name.
    + rewrite stepped_all_sample_count by assumption. rewrite H0. reflexivity.
    + rewrite stepped_all_mean, H0. now apply running_mean_from_zero.
Qed.

End AttributionFacts.

(** ** Concrete runs *)

Section AttributionRuns.

Import Attribution.
Import Runs.

Open Scope R_scope.
Open Scope string_scope.

(** C1 at a concrete input: a new family is not created, however often
    the sample is added. *)
Lemma add_sample_unknown_family_fails_on_seeds :
  ~ In "new_family" (map name (families (db (seeded empty_world)))) /\
  add_sample dump0 "new_family" [("ela_mean", 20)] (seeded empty_world)
  = (Return false, seeded empty_world) /\
  add_samples dump0 datetime_now_isoformat "new_family"
    (repeat [("ela_mean", 20)] 3) (seeded empty_world)
  = seeded empty_world.
Proof.
  assert (H : ~ In "new_family" (map name (families (db (seeded empty_world))))).
  { simpl. intros [H|[H|[H|[]]]]; discriminate H. }
  split; [exact H|].
  destruct (add_sample_unknown_family_fails dump0 "new_family"
              [("ela_mean", 20)] (seeded empty_world) H) as [H1 Hk].
  split; [exact H1|exact (Hk 3%nat)].
Defined.

(** C3 as stated fails where the write fails.  On a path whose
    directory cannot be made, construction returns the seed database and
    the missing file is still missing.  On a full disk, the damaged file
    is opened, truncated and left empty: the defaults are not persisted
    and the old text is gone. *)
Lemma init_on_unwritable_path_persists_nothing :
  (fst (init load0 dump0 "fingerprints.json" readonly_world) = Return tt /\
   db (snd (init load0 dump0 "fingerprints.json" readonly_world)) = default_db /\
   files (world (snd (init load0 dump0 "fingerprints.json" readonly_world)))
     "fingerprints.json" = Absent) /\
  (fst (init load0 dump0 "data/fingerprints.json" full_disk_world) = Return tt /\
   db (snd (init load0 dump0 "data/fingerprints.json" full_disk_world)) = default_db /\
   files full_disk_world "data/fingerprints.json" = Text "{broken" /\
   files (world (snd (init load0 dump0 "data/fingerprints.json" full_disk_world)))
     "data/fingerprints.json" = Text "").
Proof. repeat split. Qed.

(** C3 (amended) at a concrete input: a missing file on a writable path. *)
Lemma init_falls_back_to_defaults_on_missing_file :
  (forall s d, files empty_world "data/fingerprints.json" = Text s ->
               load0 s <> Decoded d) /\
  exists m,
    init load0 dump0 "data/fingerprints.json" empty_world = (Return tt, m) /\
    path m = "data/fingerprints.json" /\
    db m = default_db /\
    map name (families (db m)) =
      ["faceswap_blend"; "diffusion_inpaint"; "stylegan_family"] /\
    Forall (fun f => sample_count f = Some 0%Z /\ last_updated f = None)
      (families (db m)) /\
    (forall q, q <> "data/fingerprints.json" ->
               files (world m) q = files empty_world q) /\
    (forall d, dirs (world m) d
               = dirs empty_world d
                 || existsb (String.eqb d)
                      (makedirs_makes empty_world "data/fingerprints.json")) /\
    files (world m) "data/fingerprints.json" = Text (dump0 default_db) /\
    io_trace (world m) =
      IoWrite "data/fingerprints.json" (dump0 default_db) :: io_trace empty_world.
Proof.
  assert (H : forall s d, files empty_world "data/fingerprints.json" = Text s ->
                          load0 s <> Decoded d)
    by (intros s d Hs; discriminate Hs).
  split; [exact H|].
  exact (init_falls_back_to_defaults load0 dump0 "data/fingerprints.json"
           empty_world H).
Defined.

(** C4 as stated fails for a key that arrives late: the family has
    count 1 when ["y"] is first contributed, so the second value of ["y"]
    is weighted by [1/3] and the stored mean is 3, while the arithmetic
    mean of the two contributed values 4 and 1 is 5/2. *)
Lemma late_key_mean_is_not_arithmetic_mean :
  exists f',
    find_family "fam"
      (families (db (add_samples dump0 datetime_now_isoformat "fam"
                       late_key_samples one_family)))
    = Some (O, f') /\
    dict_get "y" (mean_of f') = Some 3 /\
    arithmetic_mean (contributed "y" late_key_samples) = 5 / 2 /\
    3 <> 5 / 2.
Proof.
  eexists. split; [reflexivity|]. cbn.
  split; [f_equal; field|]. split; [|lra].
  unfold arithmetic_mean. cbn. field.
Qed.

(** C4 (amended) at a concrete input: two samples for the seed family
    [faceswap_blend], both carrying [ela_mean]. *)
Lemma add_sample_running_mean_on_seeds :
  find_family "faceswap_blend" (families (db (seeded empty_world)))
  = Some (O, mkFamily "faceswap_blend"
               (Some [("fft_high_ratio", 0.62); ("ela_mean", 18.0);
                      ("lap_var", 120.0); ("jpeg_score", 0.55)])
               (Some 0%Z) None) /\
  exists f',
    find_family "faceswap_blend"
      (families (db (add_samples dump0 datetime_now_isoformat "faceswap_blend"
                       ela_samples (seeded empty_world))))
    = Some (O, f') /\
    sample_count f' = Some 2%Z /\
    dict_get "ela_mean" (mean_of f')
    = Some (arithmetic_mean (contributed "ela_mean" ela_samples)).
Proof.
  split; [reflexivity|].
  refine (proj2 (add_sample_running_mean dump0 datetime_now_isoformat
                   "faceswap_blend" (seeded empty_world) (i := O) eq_refl _)
            eq_refl ela_samples "ela_mean" _ _).
  - cbn. lia.
  - discriminate.
  - repeat constructor; cbn; intuition discriminate.
Defined.

(** C9 at a concrete input: one sample for the seed family
    [faceswap_blend].  [False] is returned, no write was attempted, and
    the family has count 1 in memory. *)
Lemma add_sample_boundary_on_seeds :
  fst (add_sample dump0 "faceswap_blend" [("ela_mean", 20)] (seeded empty_world))
  = Return false /\
  io_trace (world (snd (add_sample dump0 "faceswap_blend" [("ela_mean", 20)]
                          (seeded empty_world)))) = [] /\
  exists f',
    nth_error
      (families (db (snd (add_sample dump0 "faceswap_blend" [("ela_mean", 20)]
                            (seeded empty_world))))) 0
    = Some f' /\
    sample_count f' = Some 1%Z /\
    last_updated f' = None.
Proof.
  destruct (add_sample_boundary dump0 "faceswap_blend" [("ela_mean", 20)]
              (seeded empty_world)) as (Hr & _ & _ & Ht & _ & Hstep).
  split; [exact Hr|]. split; [exact Ht|].
  destruct (Hstep O _ eq_refl ltac:(cbn; lia)) as (Hfams & Hcount & Hlast).
  eexists. rewrite Hfams. split; [reflexivity|]. split; [exact Hcount|exact Hlast].
Defined.

End AttributionRuns.

(* ================================================================== *)
(** * Properties of the heuristic scorer *)

Section DetectorFacts.

Import Detector.

Open Scope R_scope.
Open Scope string_scope.

Lemma clip_unit_interval (s : R) : 0 <= clip s 0 1 <= 1.
Proof.
  unfold clip, Rmin, Rmax.
  destruct (Rle_dec s 0); destruct (Rle_dec _ 1); lra.
Qed.

Lemma sigmoid_open_unit_interval (t : R) : 0 < 1 / (1 + exp t) < 1.
Proof.
  pose proof (exp_pos t) as He.
  split.
  - apply Rdiv_lt_0_compat; lra.
  - apply Rmult_lt_reg_r with (1 + exp t); [lra|].
    unfold Rdiv. rewrite Rmult_assoc, Rinv_l by lra. lra.
Qed.

Lemma clip_sigmoid (t : R) : clip (1 / (1 + exp t)) 0 1 = 1 / (1 + exp t).
Proof.
  pose proof (sigmoid_open_unit_interval t) as [H0 H1].
  unfold clip, Rmin, Rmax.
  destruct (Rle_dec (1 / (1 + exp t)) 0); [lra|].
  destruct (Rle_dec (1 / (1 + exp t)) 1); lra.
Qed.

Lemma score_body_bounds (weights : dict R) (feats : dict pyval) (s : R) :
  score_body weights feats = Return (Float s) -> 0 <= s <= 1.
Proof.
  unfold score_body, rbind.
  destruct (weighted_sum weights feats) as [[x|]|]; [| |discriminate].
  - destruct (weight "steepness" weights) as [st|]; [|discriminate].
    destruct (weight "threshold" weights) as [th|]; [|discriminate].
    cbn. intros H. inversion H; subst.
    match goal with |- _ <= clip ?a ?b ?c <= _ =>
      replace b with 0 by lra; replace c with 1 by lra end.
    apply clip_unit_interval.
  - destruct (weight "steepness" weights) as [st|]; [|discriminate].
    destruct (weight "threshold" weights) as [th|]; discriminate.
Qed.

Lemma weighted_sum_needs (weights : dict R) (feats : dict pyval) (k : string) :
  In k ["fft_high_ratio"; "ela_mean"; "lap_var"; "jpeg_score"] ->
  dict_get k feats = None \/ dict_get k feats = Some PyOther ->
  exists e, weighted_sum weights feats = Raise e.
Proof.
  intros Hk Hbad.
  assert (Hf : exists e, feature k feats = Raise e).
  { unfold feature. destruct Hbad as [-> | ->]; eauto. }
  destruct Hf as [e He].
  unfold weighted_sum, rbind.
  simpl in Hk. destruct Hk as [<-|[<-|[<-|[<-|[]]]]]; rewrite ?He;
    repeat match goal with
           | |- context [match ?r with Return _ => _ | Raise _ => _ end] =>
               lazymatch r with
               | weight _ _ => destruct r
               | feature _ _ => first [rewrite He | destruct r]
               end
           end; eauto.
Qed.

Lemma weighted_sum_needs_weight (weights : dict R) (feats : dict pyval) (k : string) :
  In k ["fft_weight"; "ela_weight"; "lap_weight"; "jpeg_weight"] ->
  dict_get k weights = None ->
  exists e, weighted_sum weights feats = Raise e.
Proof.
  intros Hk Hbad.
  assert (Hw : weight k weights = Raise KeyError).
  { unfold weight. now rewrite Hbad. }
  unfold weighted_sum, rbind.
  simpl in Hk. destruct Hk as [<-|[<-|[<-|[<-|[]]]]]; rewrite ?Hw;
    repeat match goal with
           | |- context [match ?r with Return _ => _ | Raise _ => _ end] =>
               lazymatch r with
               | weight _ _ => first [rewrite Hw | destruct r]
               | feature _ _ => destruct r
               end
           end; eauto.
Qed.

Lemma weighted_sum_of_numbers (weights : dict R) (feats : dict pyval)
    (wf we wl wj fft ela lap jpeg : R) :
  dict_get "fft_weight" weights = Some wf ->
  dict_get "ela_weight" weights = Some we ->
  dict_get "lap_weight" weights = Some wl ->
  dict_get "jpeg_weight" weights = Some wj ->
  dict_get "fft_high_ratio" feats = Some (PyFloat fft) ->
  dict_get "ela_mean" feats = Some (PyFloat ela) ->
  dict_get "lap_var" feats = Some (PyFloat lap) ->
  dict_get "jpeg_score" feats = Some (PyFloat jpeg) ->
  weighted_sum weights feats
  = Return (Float (wf * fft + we * (ela / 50.0) + wl * (lap / 200.0) - wj * jpeg)).
Proof.
  intros Hwf Hwe Hwl Hwj Hf He Hl Hj. unfold weighted_sum, rbind, weight, feature.
  rewrite Hwf, Hwe, Hwl, Hwj, Hf, He, Hl, Hj. reflexivity.
Qed.

Lemma weighted_sum_with_nan (weights : dict R) (feats : dict pyval)
    (wf we wl wj : R) :
  dict_get "fft_weight" weights = Some wf ->
  dict_get "ela_weight" weights = Some we ->
  dict_get "lap_weight" weights = Some wl ->
  dict_get "jpeg_weight" weights = Some wj ->
  (forall k, In k ["fft_high_ratio"; "ela_mean"; "lap_var"; "jpeg_score"] ->
             exists x, dict_get k feats = Some (PyFloat x)
                       \/ dict_get k feats = Some PyNaN) ->
  (exists k, In k ["fft_high_ratio"; "ela_mean"; "lap_var"; "jpeg_score"] /\
             dict_get k feats = Some PyNaN) ->
  weighted_sum weights feats = Return NaN.
Proof.
  intros Hwf Hwe Hwl Hwj Hall (k & Hk & Hnan).
  destruct (Hall "fft_high_ratio") as [f Hf]; [simpl; tauto|].
  destruct (Hall "ela_mean") as [e He]; [simpl; tauto|].
  destruct (Hall "lap_var") as [l Hl]; [simpl; tauto|].
  destruct (Hall "jpeg_score") as [j Hj]; [simpl; tauto|].
  unfold weighted_sum, rbind, weight, feature.
  rewrite Hwf, Hwe, Hwl, Hwj.
  simpl in Hk.
  destruct Hf as [Hf|Hf]; destruct He as [He|He]; destruct Hl as [Hl|Hl];
    destruct Hj as [Hj|Hj]; rewrite Hf, He, Hl, Hj; try reflexivity.
  exfalso.
  destruct Hk as [<-|[<-|[<-|[<-|[]]]]]; congruence.
Qed.



(** The feature vector of the repository's test with the default weights:
    the weighted sum is 0.9 and the score is the logistic value at
    [4 * (0.9 - 0.7)]. *)
Lemma score_of_test_features :
  score HEURISTIC_WEIGHTS
    [("ela_mean", PyFloat 15.0); ("fft_high_ratio", PyFloat 0.7);
     ("lap_var", PyFloat 150.0); ("jpeg_score", PyFloat 0.4)]
  = Float (1 / (1 + exp (- (4 * (9 / 10 - 7 / 10))))).
Proof.
  unfold score, score_body, weighted_sum, rbind, weight, feature. cbn.
  replace 1.0 with 1 by lra. replace 0.0 with 0 by lra.
  rewrite clip_sigmoid. do 4 f_equal. lra.
Qed.

End DetectorFacts.

(* ================================================================== *)
(** * Properties of the quality gate *)

Section FilteringFacts.

Import Filtering.

Open Scope R_scope.

Lemma Rltb_true (x y : R) : Rltb x y = true <-> x < y.
Proof. unfold Rltb. destruct (Rlt_dec x y); split; auto; discriminate. Qed.

Lemma Rgeb_true (x y : R) : Rgeb x y = true <-> x >= y.
Proof. unfold Rgeb. destruct (Rge_dec x y); split; auto; discriminate. Qed.

(** C6 (amended): the gate accepts iff a face was found, its confidence
    is at least the configured threshold and the smaller side is at least
    the minimum side.  It always returns the full flag set.  The notes
    are, in this order: the min-side note iff the smaller side is too
    small, the no-face note iff no face was found, and the low-confidence
    note iff a face was found and its confidence is below the threshold;
    there is none when the image is accepted. *)
Theorem accept_image_decision (cfg : Config) (found : bool) (conf : R)
    (w h : Z) (min_side : option Z) :
  let thr := FACE_CONFIDENCE_THRESHOLD cfg in
  let side := effective_min_side cfg min_side in
  let r := accept_image cfg found conf w h min_side in
  (fst r = true <-> found = true /\ conf >= thr /\ (side <= Z.min w h)%Z) /\
  face_found (snd r) = found /\
  face_conf (snd r) = conf /\
  width (snd r) = w /\
  height (snd r) = h /\
  (min_side_ok (snd r) = true <-> (side <= Z.min w h)%Z) /\
  notes (snd r) =
    (if (side <=? Z.min w h)%Z then [] else [NoteMinSide side])
    ++ (if found then [] else [NoteNoFace])
    ++ (if found && Rltb conf thr then [NoteLowFaceConf thr] else []) /\
  (In (NoteMinSide side) (notes (snd r)) <-> (Z.min w h < side)%Z) /\
  (In NoteNoFace (notes (snd r)) <-> found = false) /\
  (In (NoteLowFaceConf thr) (notes (snd r)) <-> found = true /\ conf < thr) /\
  (fst r = true -> notes (snd r) = []).
Proof.
  intros thr side r.
  assert (Hnotes : notes (snd r) =
    (if (side <=? Z.min w h)%Z then [] else [NoteMinSide side])
    ++ (if found then [] else [NoteNoFace])
    ++ (if found && Rltb conf thr then [NoteLowFaceConf thr] else [])).
  { subst r thr side. unfold accept_image, effective_min_side. cbn.
    destruct (_ <=? Z.min w h)%Z; destruct found; cbn;
      try destruct (Rltb conf (FACE_CONFIDENCE_THRESHOLD cfg)); reflexivity. }
  assert (Hacc : fst r = found && Rgeb conf thr && (side <=? Z.min w h)%Z)
    by reflexivity.
  assert (Hiff : fst r = true <->
                 found = true /\ conf >= thr /\ (side <= Z.min w h)%Z).
  { rewrite Hacc, !andb_true_iff, Rgeb_true, Z.leb_le. tauto. }
  split; [exact Hiff|].
  do 4 (split; [reflexivity|]).
  split; [apply Z.leb_le|].
  split; [exact Hnotes|].
  rewrite Hnotes, !in_app_iff.
  assert (Hlow : found && Rltb conf thr = true <-> found = true /\ conf < thr)
    by (rewrite andb_true_iff, Rltb_true; tauto).
  split; [|split; [|split]].
  - destruct (Z.leb_spec side (Z.min w h)); destruct found;
      destruct (_ && Rltb conf thr); cbn;
      intuition (try discriminate; try lia).
  - destruct (side <=? Z.min w h)%Z; destruct found;
      destruct (_ && Rltb conf thr); cbn;
      intuition (try discriminate).
  - rewrite <- Hlow.
    destruct (side <=? Z.min w h)%Z; destruct found;
      destruct (_ && Rltb conf thr); cbn;
      intuition (try discriminate).
  - intros Ha. apply Hiff in Ha. destruct Ha as (-> & Hc & Hs).
    apply Z.leb_le in Hs. rewrite Hs. cbn.
    destruct (Rltb conf thr) eqn:Hl; [|reflexivity].
    apply Rltb_true in Hl. lra.
Qed.

(** C6 as stated fails when no face is found: the confidence 0.0 is
    below the threshold 0.90, yet the only note is the no-face note. *)
Lemma no_face_has_no_low_confidence_note :
  fst (accept_image default_config false 0.0 512 512 None) = false /\
  notes (snd (accept_image default_config false 0.0 512 512 None)) = [NoteNoFace] /\
  0.0 < FACE_CONFIDENCE_THRESHOLD default_config.
Proof.
  split; [reflexivity|]. split; [reflexivity|]. cbn. lra.
Qed.

(** The four cases of the repository's test. *)
Lemma accept_image_test_cases :
  fst (accept_image default_config true 0.95 512 512 None) = true /\
  notes (snd (accept_image default_config true 0.95 512 512 None)) = [] /\
  fst (accept_image default_config true 0.5 512 512 None) = false /\
  notes (snd (accept_image default_config true 0.5 512 512 None))
  = [NoteLowFaceConf 0.90] /\
  fst (accept_image default_config false 0.0 512 512 None) = false /\
  notes (snd (accept_image default_config false 0.0 512 512 None)) = [NoteNoFace] /\
  fst (accept_image default_config true 0.95 100 100 None) = false /\
  notes (snd (accept_image default_config true 0.95 100 100 None))
  = [NoteMinSide 224].
Proof.
  unfold accept_image, Rltb, Rgeb. cbn.
  destruct (Rlt_dec 0.95 0.90); [lra|].
  destruct (Rge_dec 0.95 0.90); [|lra].
  destruct (Rlt_dec 0.5 0.90); [|lra].
  destruct (Rge_dec 0.5 0.90); [lra|].
  cbn. repeat split.
Qed.

End FilteringFacts.

(* ================================================================== *)
(** * Properties of [match] *)

Section MatchFacts.

Import Attribution.
Import Cosine.

Open Scope R_scope.

(** ** The loop body never raises *)

Lemma comprehension_items (d : Features) (keys : list string) :
  Forall (fun k => dict_mem k d = true) keys ->
  comprehension (fun k => dict_item k d) keys = Return (restricted keys d).
Proof.
  induction 1 as [|k keys Hk _ IH]; simpl; auto.
  unfold dict_item, dict_mem, dict_get_default in *.
  destruct (dict_get k d); [|discriminate].
  unfold restricted in IH. now rewrite IH.
Qed.

Lemma common_keys_in_query (feats mean : Features) :
  Forall (fun k => dict_mem k feats = true) (common_keys feats mean).
Proof.
  apply Forall_forall. intros k Hk. unfold common_keys in Hk.
  now apply filter_In in Hk.
Qed.

Lemma common_keys_in_mean (feats mean : Features) :
  Forall (fun k => dict_mem k mean = true) (common_keys feats mean).
Proof.
  apply Forall_forall. intros k Hk. unfold common_keys in Hk.
  apply filter_In in Hk. destruct Hk as [Hk _].
  apply dict_get_key in Hk. destruct Hk as [v Hv].
  unfold dict_mem. now rewrite Hv.
Qed.

Lemma family_similarity_spec (feats : Features) (family : Family) :
  family_similarity feats family = Return (overlap_score feats family).
Proof.
  unfold family_similarity, overlap_score.
  set (mean := match features_mean family with Some d => d | None => [] end).
  pose proof (common_keys_in_query feats mean) as Hq.
  pose proof (common_keys_in_mean feats mean) as Hm.
  destruct (common_keys feats mean) as [|k keys]; [reflexivity|].
  rewrite (@comprehension_items _ _ Hq), (@comprehension_items _ _ Hm). reflexivity.
Qed.

Lemma match_results_scored (feats : Features) (fams : list Family) :
  match_results feats fams = scored feats fams.
Proof.
  induction fams as [|family rest IH]; simpl; auto.
  rewrite family_similarity_spec, IH. unfold scored. simpl.
  destruct (overlap_score feats family); reflexivity.
Qed.

(** ** The sort *)

Lemma insert_desc_perm (x : string * R) (l : list (string * R)) :
  Permutation (insert_desc x l) (x :: l).
Proof.
  induction l as [|y l IH]; simpl; auto.
  destruct (Rle_dec (snd y) (snd x)); auto.
  rewrite IH. apply perm_swap.
Qed.

Lemma sort_desc_perm (l : list (string * R)) : Permutation (sort_desc l) l.
Proof.
  induction l as [|x l IH]; simpl; auto.
  rewrite insert_desc_perm. now constructor.
Qed.

Lemma insert_desc_sorted (x : string * R) (l : list (string * R)) :
  StronglySorted ge_score l -> StronglySorted ge_score (insert_desc x l).
Proof.
  induction 1 as [|y l Hs IH Hy]; simpl.
  - repeat constructor.
  - destruct (Rle_dec (snd y) (snd x)) as [Hle|Hgt].
    + constructor; [now constructor|].
      constructor; [unfold ge_score; lra|].
      eapply Forall_impl; [|exact Hy]. unfold ge_score. intros z Hz. lra.
    + constructor; [exact IH|].
      eapply Permutation_Forall; [symmetry; apply insert_desc_perm|].
      constructor; [unfold ge_score; lra|exact Hy].
Qed.

Lemma sort_desc_sorted (l : list (string * R)) : StronglySorted ge_score (sort_desc l).
Proof.
  induction l as [|x l IH]; simpl; [constructor|].
  now apply insert_desc_sorted.
Qed.

Lemma insert_desc_stable (s : R) (x : string * R) (l : list (string * R)) :
  filter (same_score s) (insert_desc x l) = filter (same_score s) (x :: l).
Proof.
  induction l as [|y l IH]; simpl; auto.
  destruct (Rle_dec (snd y) (snd x)) as [Hle|Hgt]; [reflexivity|].
  simpl in *. rewrite IH.
  unfold same_score.
  destruct (Req_dec_T (snd y) s); destruct (Req_dec_T (snd x) s);
    try reflexivity.
  exfalso. lra.
Qed.

Lemma sort_desc_stable (s : R) (l : list (string * R)) :
  filter (same_score s) (sort_desc l) = filter (same_score s) l.
Proof.
  induction l as [|x l IH]; simpl; auto.
  rewrite insert_desc_stable. simpl. now rewrite IH.
Qed.

Lemma firstn_sorted (n : nat) (l : list (string * R)) :
  StronglySorted ge_score l -> StronglySorted ge_score (firstn n l).
Proof.
  intros H. revert n. induction H as [|y l Hs IH Hy]; intros [|n]; simpl;
    try constructor; auto.
  apply Forall_forall. intros z Hz.
  rewrite Forall_forall in Hy. apply Hy.
  rewrite <- (firstn_skipn n l). apply in_or_app. now left.
Qed.

Lemma slice_to_prefix (A : Type) (k : Z) (l : list A) :
  exists n, slice_to k l = firstn n l /\
            ((0 <= k)%Z -> n = Z.to_nat k) /\
            ((k < 0)%Z -> n = (List.length l - Z.to_nat (- k))%nat).
Proof.
  unfold slice_to. destruct (Z.leb_spec 0 k).
  - eexists. split; [reflexivity|]. split; auto. lia.
  - eexists. split; [reflexivity|]. split; auto. lia.
Qed.

(** ** A query equal to a family's mean *)

Lemma py_sum_fold_right (l : list R) : py_sum l = fold_right Rplus 0 l.
Proof.
  unfold py_sum.
  assert (H : forall a, fold_left Rplus l a = a + fold_right Rplus 0 l).
  { induction l as [|x l IH]; intros a; simpl; [lra|]. rewrite IH. lra. }
  rewrite H. lra.
Qed.

Lemma sum_squares_nonneg (v : list R) : 0 <= py_sum (map (fun x => x * x) v).
Proof.
  rewrite py_sum_fold_right.
  induction v as [|x v IH]; simpl; [lra|]. nra.
Qed.

Lemma dot_product_self (v : list R) :
  dot_product v v = py_sum (map (fun x => x * x) v).
Proof.
  unfold dot_product. f_equal.
  induction v as [|x v IH]; simpl; auto. now rewrite IH.
Qed.

Lemma cosine_self (v : list R) :
  let S := py_sum (map (fun x => x * x) v) in
  cosine v v = S / ((sqrt S + 1e-8) * (sqrt S + 1e-8)).
Proof. intros S. unfold cosine, norm. now rewrite dot_product_self. Qed.

Lemma floored_ratio_bounds (S d : R) :
  0 <= S -> 0 < d ->
  (S = 0 -> S / ((sqrt S + d) * (sqrt S + d)) = 0) /\
  (0 < S ->
     1 - 2 * d / sqrt S < S / ((sqrt S + d) * (sqrt S + d)) < 1).
Proof.
  intros HS Hd. split.
  - intros ->. unfold Rdiv. ring.
  - intros Hpos.
    pose proof (sqrt_lt_R0 S Hpos) as HN.
    pose proof (sqrt_sqrt S HS) as Hsq.
    set (N := sqrt S) in *.
    assert (HA : 0 < (N + d) * (N + d)) by nra.
    rewrite <- Hsq. split.
    + apply Rmult_lt_reg_r with ((N + d) * (N + d) * N); [nra|].
      replace ((1 - 2 * d / N) * ((N + d) * (N + d) * N))
        with ((N + d) * (N + d) * N - 2 * d * ((N + d) * (N + d)))
        by (field; lra).
      replace (N * N / ((N + d) * (N + d)) * ((N + d) * (N + d) * N))
        with (N * N * N) by (field; lra).
      assert (0 < N * d * d) by (apply Rmult_lt_0_compat; nra).
      assert (0 < d * d * d) by (apply Rmult_lt_0_compat; nra).
      nra.
    + apply Rmult_lt_reg_r with ((N + d) * (N + d)); [exact HA|].
      replace (N * N / ((N + d) * (N + d)) * ((N + d) * (N + d)))
        with (N * N) by (field; lra).
      nra.
Qed.

Lemma within_tolerance (S tol : R) :
  0 <= S -> 1e-9 <= tol -> 4e-8 <= tol * sqrt S ->
  Rabs (S / ((sqrt S + 1e-8) * (sqrt S + 1e-8)) - 1) <= tol.
Proof.
  intros HS Htol Hnorm.
  assert (HN : 0 < sqrt S).
  { destruct (sqrt_pos S) as [H|H]; [exact H|].
    rewrite <- H in Hnorm. lra. }
  assert (Hpos : 0 < S).
  { destruct HS as [H|H]; [exact H|]. subst S. rewrite sqrt_0 in HN. lra. }
  destruct (@floored_ratio_bounds S 1e-8 HS ltac:(lra)) as [_ Hb].
  destruct (Hb Hpos) as [Hlo Hhi].
  assert (Hd : 2 * 1e-8 / sqrt S <= tol).
  { apply Rmult_le_reg_r with (sqrt S); [exact HN|].
    unfold Rdiv. rewrite Rmult_assoc, Rinv_l by lra. lra. }
  apply Rabs_le. lra.
Qed.

Lemma identical_common_keys (feats mean : Features) :
  (forall k, dict_get k feats = dict_get k mean) ->
  common_keys feats mean = dict_keys mean /\
  restricted (dict_keys mean) feats = restricted (dict_keys mean) mean.
Proof.
  intros Heq. split.
  - unfold common_keys.
    assert (H : forall k, In k (dict_keys mean) -> dict_mem k feats = true).
    { intros k Hk. apply dict_get_key in Hk. destruct Hk as [v Hv].
      unfold dict_mem. now rewrite Heq, Hv. }
    induction (dict_keys mean) as [|k ks IH]; simpl; auto.
    rewrite H by now left. f_equal. apply IH. intros k' Hk'. apply H. now right.
  - unfold restricted, dict_get_default. apply map_ext. intros k. now rewrite Heq.
Qed.

Lemma identical_overlap_score (feats : Features) (family : Family) :
  Runs.mean_of family <> [] ->
  (forall k, dict_get k feats = dict_get k (Runs.mean_of family)) ->
  overlap_score feats family =
    Some (name family,
          squared_norm (Runs.mean_of family)
          / ((sqrt (squared_norm (Runs.mean_of family)) + 1e-8)
             * (sqrt (squared_norm (Runs.mean_of family)) + 1e-8))).
Proof.
  intros Hne Heq. unfold overlap_score.
  change (match features_mean family with Some d => d | None => [] end)
    with (Runs.mean_of family).
  destruct (@identical_common_keys _ _ Heq) as [Hk Hv].
  rewrite Hk.
  destruct (dict_keys (Runs.mean_of family)) as [|k ks] eqn:Hks.
  - exfalso. apply Hne. unfold dict_keys in Hks.
    now apply map_eq_nil in Hks.
  - rewrite Hv. unfold squared_norm. rewrite Hks.
    now rewrite cosine_self.
Qed.

Lemma scored_no_overlap (feats : Features) (fams : list Family) :
  (forall family, In family fams ->
     common_keys feats (Runs.mean_of family) = []) ->
  scored feats fams = [].
Proof.
  unfold scored. induction fams as [|family rest IH]; intros Hno; simpl; auto.
  unfold overlap_score at 1.
  change (match features_mean family with Some d => d | None => [] end)
    with (Runs.mean_of family).
  rewrite (Hno family) by now left. simpl.
  apply IH. intros f Hf. apply Hno. now right.
Qed.



(** A query equal to the mean of a family of norm 1. *)
Lemma match_unit_vector :
  fst (match_ [("ela_mean"%string, 1)] 3 unit_family)
  = Return [("unit"%string, 1 / ((1 + 1e-8) * (1 + 1e-8)))].
Proof.
  unfold match_, bind, get_state, ret. cbn.
  unfold slice_to. simpl. do 3 f_equal.
  unfold norm, py_sum. simpl.
  replace (0 + 1 * 1) with 1 by lra. now rewrite sqrt_1.
Qed.

End MatchFacts.

(* ================================================================== *)
(** * Error level analysis on concrete images *)

Section ElaFacts.

Import Ela.

Open Scope R_scope.

(** C7 (what the code does): the returned scalar is the mean of the
    image after the brightness normalisation "for visualization".  For
    one RGB pixel whose red sample the codec moves by 1, the difference
    image is (1, 0, 0) with mean 1/3, the scale is 1, the enhanced image
    is (255, 0, 0), and the function returns 85.  For a single-band
    image the loop over [getextrema()] raises [TypeError]. *)
Theorem error_level_analysis_returns_scaled_mean :
  error_level_analysis shifting_codec rgb_pixel 90
  = Return (mkImage [[255]; [0]; [0]]%Z, mean_abs (mkImage [[255]; [0]; [0]]%Z)) /\
  mean_abs (mkImage [[255]; [0]; [0]]%Z) = 85 /\
  mean_abs_diff rgb_pixel recompressed_pixel = 1 / 3 /\
  error_level_analysis lossless_codec grey_pixel 90 = Raise TypeError.
Proof.
  split; [reflexivity|]. split; [|split; [|reflexivity]].
  - unfold mean_abs. simpl. lra.
  - unfold mean_abs_diff, mean_abs. simpl. lra.
Qed.

End ElaFacts.

(* ================================================================== *)
(** * Properties of the batch orchestrator *)

Section BatchFacts.

Import Batch.

Variable Image : Type.
Variable Payload : Type.
Variable pipeline : Image -> result Payload.
Variable str : exn -> string.
Variable uuid4 : nat -> string.
Variable worker_fault : nat -> option exn.

Local Abbreviation task := (run_task pipeline str worker_fault).
Local Abbreviation pool := (run_pool pipeline str worker_fault).
Local Abbreviation good := (filled_correctly pipeline str worker_fault).
Local Abbreviation expected := (expected_result pipeline str uuid4 worker_fault).

Lemma nth_error_replace_nth_beyond (A : Type) (i : nat) (x : A) (l : list A) :
  (List.length l <= i)%nat -> nth_error (replace_nth i x l) i = None.
Proof.
  intros H. apply nth_error_None. now rewrite replace_nth_length.
Qed.

Lemma filled_correctly_repeat (data : list (string * Image)) (n : nat) :
  good data (repeat None n).
Proof.
  intros i o H. exfalso.
  destruct (Nat.lt_ge_cases i n) as [Hlt|Hge].
  - rewrite nth_error_repeat in H by assumption. discriminate.
  - assert (Hn : nth_error (repeat (@None (outcome Payload)) n) i = None)
      by (apply nth_error_None; now rewrite repeat_length).
    rewrite Hn in H. discriminate.
Qed.

Lemma filled_correctly_replace (data : list (string * Image))
    (futures : list (option (outcome Payload))) (j : nat) (d : string * Image) :
  good data futures ->
  nth_error data j = Some d ->
  good data (replace_nth j (Some (task j d)) futures).
Proof.
  intros Hg Hd i o H.
  destruct (Nat.eq_dec j i) as [->|Hne].
  - destruct (Nat.lt_ge_cases i (List.length futures)) as [Hlt|Hge].
    + rewrite nth_error_replace_nth_same in H by assumption.
      inversion H; subst. eauto.
    + rewrite nth_error_replace_nth_beyond in H by assumption. discriminate.
  - rewrite nth_error_replace_nth_other in H by assumption. eauto.
Qed.

Lemma pool_length (data : list (string * Image)) (schedule : list nat)
    (futures : list (option (outcome Payload))) :
  List.length (pool data schedule futures) = List.length futures.
Proof.
  revert futures. induction schedule as [|j rest IH]; intros futures; simpl; auto.
  destruct (nth_error data j); rewrite IH; auto using replace_nth_length.
Qed.

Lemma pool_keeps (data : list (string * Image)) (schedule : list nat)
    (futures : list (option (outcome Payload))) (i : nat) (o : outcome Payload) :
  good data futures ->
  nth_error futures i = Some (Some o) ->
  nth_error (pool data schedule futures) i = Some (Some o).
Proof.
  revert futures. induction schedule as [|j rest IH]; intros futures Hg Hi; simpl; auto.
  destruct (nth_error data j) as [d|] eqn:Hd; [|now apply IH].
  apply IH; [now apply filled_correctly_replace|].
  destruct (Nat.eq_dec j i) as [->|Hne].
  - destruct (Hg i o Hi) as (d' & Hd' & ->).
    rewrite Hd in Hd'. inversion Hd'; subst.
    apply nth_error_replace_nth_same. apply nth_error_Some. now rewrite Hi.
  - now rewrite nth_error_replace_nth_other.
Qed.

Lemma pool_fills (data : list (string * Image)) (schedule : list nat)
    (futures : list (option (outcome Payload))) (i : nat) (d : string * Image) :
  good data futures ->
  List.length futures = List.length data ->
  In i schedule ->
  nth_error data i = Some d ->
  nth_error (pool data schedule futures) i = Some (Some (task i d)).
Proof.
  revert futures. induction schedule as [|j rest IH];
    intros futures Hg Hlen Hin Hd; simpl; [contradiction|].
  destruct Hin as [->|Hin].
  - rewrite Hd. apply pool_keeps; [now apply filled_correctly_replace|].
    apply nth_error_replace_nth_same. rewrite Hlen.
    apply nth_error_Some. now rewrite Hd.
  - destruct (nth_error data j) as [dj|] eqn:Hj; [|now apply IH].
    apply IH; auto.
    + now apply filled_correctly_replace.
    + now rewrite replace_nth_length.
Qed.

Lemma gather_all_done (os : list (outcome Payload)) :
  gather (map Some os) = Some os.
Proof. induction os as [|o os IH]; simpl; auto. now rewrite IH. Qed.

Lemma nth_error_outcomes_from (k i : nat) (data : list (string * Image)) :
  nth_error (outcomes_from pipeline str worker_fault k data) i
  = option_map (task (k + i)) (nth_error data i).
Proof.
  revert k i. induction data as [|d rest IH]; intros k [|i]; simpl; auto.
  - now rewrite Nat.add_0_r.
  - rewrite IH. now rewrite Nat.add_succ_r.
Qed.

Lemma nth_error_expected_results (k i : nat) (images : list Image) :
  nth_error (expected_results pipeline str uuid4 worker_fault k images) i
  = option_map (expected (k + i)) (nth_error images i).
Proof.
  revert k i. induction images as [|d rest IH]; intros k [|i]; simpl; auto.
  - now rewrite Nat.add_0_r.
  - rewrite IH. now rewrite Nat.add_succ_r.
Qed.

Lemma expected_results_length (k : nat) (images : list Image) :
  List.length (expected_results pipeline str uuid4 worker_fault k images)
  = List.length images.
Proof. revert k. induction images; intros k; simpl; auto. Qed.

Lemma assign_ids_length (k : nat) (images : list Image) :
  List.length (assign_ids uuid4 k images) = List.length images.
Proof. revert k. induction images; intros k; simpl; auto. Qed.

Lemma assign_ids_nth (k j : nat) (images : list Image) :
  (j < List.length images)%nat ->
  nth j (map fst (assign_ids uuid4 k images)) ""%string = uuid4 (k + j)%nat.
Proof.
  revert k j. induction images as [|img rest IH]; intros k [|j] H; simpl in *; try lia.
  - now rewrite Nat.add_0_r.
  - rewrite IH by lia. now rewrite Nat.add_succ_r.
Qed.

Lemma handle_results_expected (data0 : list (string * Image)) (k : nat)
    (rest : list Image) :
  (forall j, (j < List.length rest)%nat ->
             nth (k + j) (map fst data0) ""%string = uuid4 (k + j)%nat) ->
  handle_results str data0 k
    (outcomes_from pipeline str worker_fault k (assign_ids uuid4 k rest))
  = expected_results pipeline str uuid4 worker_fault k rest.
Proof.
  revert k. induction rest as [|img rest IH]; intros k Hid; simpl; auto.
  assert (Hrest : handle_results str data0 (S k)
            (outcomes_from pipeline str worker_fault (S k) (assign_ids uuid4 (S k) rest))
          = expected_results pipeline str uuid4 worker_fault (S k) rest).
  { apply IH. intros j Hj.
    replace (S k + j)%nat with (k + S j)%nat by lia. apply Hid. simpl. lia. }
  unfold run_task at 1, expected_result at 1.
  destruct (worker_fault k) as [e|].
  - rewrite Hrest. f_equal. f_equal.
    specialize (Hid O). rewrite Nat.add_0_r in Hid. apply Hid. simpl. lia.
  - now rewrite Hrest.
Qed.

(** The futures once every task has finished. *)
Lemma pool_completes (data : list (string * Image)) (schedule : list nat) :
  (forall i, (i < List.length data)%nat -> In i schedule) ->
  pool data schedule (repeat None (List.length data))
  = map Some (outcomes_from pipeline str worker_fault 0 data).
Proof.
  intros Hall. apply nth_error_ext. intros i.
  rewrite nth_error_map, nth_error_outcomes_from. simpl.
  destruct (nth_error data i) as [d|] eqn:Hd; simpl.
  - apply pool_fills; auto.
    + apply filled_correctly_repeat.
    + apply repeat_length.
    + apply Hall. apply nth_error_Some. now rewrite Hd.
  - apply nth_error_None. rewrite pool_length, repeat_length.
    now apply nth_error_None.
Qed.


End BatchFacts.


(* ================================================================== *)
(** * Further properties of the attribution index *)

Unset Implicit Arguments.

Lemma fold_left_Zadd (l : list Z) (a : Z) :
  fold_left Z.add l a = (a + fold_right Z.add 0 l)%Z.
Proof.
  revert a. induction l as [|x l IH]; intros a; simpl; [lia|].
  rewrite IH. lia.
Qed.

Lemma map_replace_nth (A B : Type) (g : A -> B) (i : nat) (x y : A) (l : list A) :
  nth_error l i = Some y -> g x = g y ->
  map g (replace_nth i x l) = map g l.
Proof.
  revert i. induction l as [|z l IH]; intros [|i] H Hg; simpl in *;
    try discriminate; auto.
  - inversion H; subst. now rewrite Hg.
  - now rewrite IH.
Qed.

Lemma sum_replace_nth (g : Attribution.Family -> Z) (i : nat)
    (x y : Attribution.Family) (l : list Attribution.Family) :
  nth_error l i = Some y ->
  fold_right Z.add 0%Z (map g (replace_nth i x l))
  = (fold_right Z.add 0 (map g l) + (g x - g y))%Z.
Proof.
  revert i. induction l as [|z l IH]; intros [|i] H; simpl in *;
    try discriminate.
  - inversion H; subst. lia.
  - rewrite (IH i H). lia.
Qed.

Section AttributionMore.

Import Attribution.
Import Runs.
Import Ranking.

Open Scope R_scope.

Variable json_load : string -> parsed.
Variable json_dump : Database -> string.

(** X1: a database that one index saved is what the next construction on
    the same path loads, provided the write succeeded and [json.load]
    inverts [json.dump] on it; that construction writes nothing. *)
Theorem save_then_load_round_trip (m : Machine) :
  write_fails (world m) (path m) = false ->
  json_load (json_dump (db m)) = Decoded (db m) ->
  db (snd (_save json_dump m)) = db m /\
  init json_load json_dump (path m) (world (snd (_save json_dump m)))
  = (Return tt, mkMachine (path m) (db m) (world (snd (_save json_dump m)))).
Proof using.
  intros Hw Hrt. rewrite save_spec. cbn [fst snd db world].
  unfold write_fails in Hw. unfold after_save.
  destruct (write_fault (world m) (path m)); try discriminate Hw.
  split; [reflexivity|].
  unfold init, _load, try_except, bind, get_state. cbn.
  rewrite String.eqb_refl, Hrt. reflexivity.
Qed.

Lemma add_sample_in_db (now : result string) (nm : string)
    (features : Features) (m : Machine) :
  db (snd (add_sample_in json_dump now nm features m))
  = db (snd (add_sample_body now nm features m)).
Proof using.
  rewrite add_sample_in_cases.
  destruct (add_sample_body now nm features m) as [[[]|e] m1]; cbn;
    [rewrite save_spec|]; reflexivity.
Qed.

Lemma add_sample_body_names (now : result string) (nm : string)
    (features : Features) (m : Machine) :
  map name (families (db (snd (add_sample_body now nm features m))))
  = (map name (families (db m))
     ++ match find_family nm (families (db m)), now with
        | None, Return _ => [nm]
        | _, _ => []
        end)%list.
Proof using.
  unfold add_sample_body, bind, get_state. cbn.
  destruct (find_family nm (families (db m))) as [[i f]|] eqn:Hf.
  - rewrite app_nil_r.
    destruct (find_family_name nm (families (db m)) Hf) as [_ Hnth].
    destruct (update_mean _ _ features) as [current' looped].
    destruct (features_mean f); destruct looped; destruct now; cbn;
      try reflexivity;
      now apply map_replace_nth with (y := f).
  - destruct now; cbn; [|now rewrite app_nil_r].
    rewrite map_app. reflexivity.
Qed.

(** X2: [add_sample] keeps the names of the stored families and their
    order.  It appends the new name only when the family is unknown and
    the timestamp could be taken; so family names that were unique stay
    unique. *)
Theorem add_sample_keeps_family_names (now : result string) (nm : string)
    (features : Features) (m : Machine) :
  map name (families (db (snd (add_sample_in json_dump now nm features m))))
  = (map name (families (db m))
     ++ match find_family nm (families (db m)), now with
        | None, Return _ => [nm]
        | _, _ => []
        end)%list /\
  (NoDup (map name (families (db m))) ->
   NoDup (map name
            (families (db (snd (add_sample_in json_dump now nm features m)))))).
Proof using.
  rewrite add_sample_in_db, add_sample_body_names. split; [reflexivity|].
  intros Hnd.
  destruct (find_family nm (families (db m))) as [[i f]|] eqn:Hf;
    [now rewrite app_nil_r|].
  destruct now; [|now rewrite app_nil_r].
  apply find_family_none in Hf.
  eapply Permutation_NoDup; [apply Permutation_cons_append|].
  now constructor.
Qed.

(** X3: for an existing family with a non-negative count, one call of
    [add_sample] (whatever it returns) leaves the number of families and
    their names as they were and raises the total that
    [get_family_stats] reports by exactly one, the family's own entry
    showing its count plus one. *)
Theorem add_sample_raises_total_by_one (now : result string) (nm : string)
    (features : Features) (m : Machine) (i : nat) (f : Family) :
  find_family nm (families (db m)) = Some (i, f) ->
  (0 <= count_of f)%Z ->
  exists before after,
    fst (get_family_stats m) = Return before /\
    fst (get_family_stats (snd (add_sample_in json_dump now nm features m)))
    = Return after /\
    total_families after = total_families before /\
    total_samples after = (total_samples before + 1)%Z /\
    total_samples before = sum_counts (families (db m)) /\
    map stat_name (stat_families after) = map stat_name (stat_families before) /\
    exists entry,
      nth_error (stat_families after) i = Some entry /\
      stat_name entry = nm /\
      stat_sample_count entry = (count_of f + 1)%Z.
Proof using.
  intros Hf Hn.
  destruct (find_family_name nm (families (db m)) Hf) as [Hname Hnth].
  assert (Hfams : families (db (snd (add_sample_in json_dump now nm features m)))
                  = replace_nth i (stepped now f features) (families (db m))).
  { rewrite (add_sample_present json_dump now nm features m Hf) by lia.
    destruct now; cbn; [rewrite save_spec|]; reflexivity. }
  unfold get_family_stats, bind, get_state, ret. cbn.
  eexists. eexists. split; [reflexivity|]. split; [reflexivity|]. cbn.
  rewrite Hfams, replace_nth_length, !fold_left_Zadd.
  rewrite (sum_replace_nth count_of i (stepped now f features) f _ Hnth).
  change (count_of (stepped now f features)) with (count_of f + 1)%Z.
  split; [reflexivity|]. split; [lia|]. split; [unfold sum_counts; lia|].
  split.
  - rewrite !map_map. cbn. now apply map_replace_nth with (y := f).
  - eexists. split.
    + rewrite nth_error_map, nth_error_replace_nth_same;
        [reflexivity|]. apply nth_error_Some. now rewrite Hnth.
    + cbn. split; [exact Hname|reflexivity].
Qed.

Lemma dict_mem_set_other (k k0 : string) (v : R) (d : Features) :
  k <> k0 -> dict_mem k (dict_set k0 v d) = dict_mem k d.
Proof using. intros H. unfold dict_mem. now rewrite dict_get_set_other. Qed.

Lemma update_mean_divides_by_zero (n : Z) (features current : Features) (k : string) :
  (n + 1 = 0)%Z ->
  dict_mem k features = true -> dict_mem k current = true ->
  snd (update_mean n current features) = Raise ZeroDivisionError.
Proof using.
  intros Hn. revert current.
  induction features as [|[key value] rest IH]; intros current Hk Hc;
    [discriminate|].
  simpl. destruct (dict_get key current) as [old|] eqn:Hold.
  - destruct (Z.eqb_spec (n + 1) 0); [reflexivity|contradiction].
  - assert (Hne : k <> key).
    { intros ->. unfold dict_mem in Hc. now rewrite Hold in Hc. }
    apply IH.
    + unfold dict_mem in *. simpl in Hk.
      apply String.eqb_neq in Hne. now rewrite Hne in Hk.
    + now rewrite dict_mem_set_other.
Qed.

(** X4: a stored sample count of -1 blocks a family.  When the sample
    shares a key with the family's mean, the update divides by
    [n + 1 = 0]: [add_sample] returns [False], attempts no write, and the
    family keeps its count, so every later call fails the same way. *)
Theorem add_sample_on_count_minus_one (now : result string) (nm : string)
    (features : Features) (m : Machine) (i : nat) (f : Family) (k : string) :
  find_family nm (families (db m)) = Some (i, f) ->
  count_of f = (-1)%Z ->
  dict_mem k features = true ->
  dict_mem k (mean_of f) = true ->
  fst (add_sample_in json_dump now nm features m) = Return false /\
  world (snd (add_sample_in json_dump now nm features m)) = world m /\
  exists f',
    find_family nm (families (db (snd (add_sample_in json_dump now nm features m))))
    = Some (i, f') /\
    sample_count f' = sample_count f.
Proof using.
  intros Hf Hc Hk Hm.
  assert (Hz : (count_of f + 1 = 0)%Z) by lia.
  pose proof (update_mean_divides_by_zero (count_of f) features (mean_of f) k
                Hz Hk Hm) as Hraise.
  rewrite add_sample_in_cases.
  unfold add_sample_body, bind, get_state. cbn. rewrite Hf.
  unfold count_of, mean_of in Hraise.
  destruct (update_mean
              match sample_count f with Some c => c | None => 0%Z end
              match features_mean f with Some d => d | None => [] end
              features) as [current' looped].
  cbn in Hraise. subst looped.
  destruct (features_mean f) as [d|] eqn:Hmean.
  - cbn. split; [reflexivity|]. split; [reflexivity|].
    exists (mkFamily (name f) (Some current') (sample_count f) (last_updated f)).
    split; [|reflexivity].
    exact (find_family_replace nm (families (db m))
             (mkFamily (name f) (Some current') (sample_count f) (last_updated f))
             Hf eq_refl).
  - unfold mean_of in Hm. rewrite Hmean in Hm. discriminate.
Qed.

End AttributionMore.

(** X1 at a concrete input: the seed database on a writable path. *)
Lemma save_then_load_round_trip_on_seeds :
  Attribution.write_fails (Attribution.world (Runs.seeded Runs.empty_world))
    (Attribution.path (Runs.seeded Runs.empty_world)) = false /\
  Ranking.echo_load (Ranking.echo_dump (Attribution.db (Runs.seeded Runs.empty_world)))
  = Attribution.Decoded (Attribution.db (Runs.seeded Runs.empty_world)) /\
  fst (Attribution.init Ranking.echo_load Ranking.echo_dump "data/fingerprints.json"
         (Attribution.world
            (snd (Attribution._save Ranking.echo_dump (Runs.seeded Runs.empty_world)))))
  = Return tt.
Proof.
  split; [reflexivity|]. split; [reflexivity|].
  destruct (save_then_load_round_trip Ranking.echo_load Ranking.echo_dump
              (Runs.seeded Runs.empty_world) eq_refl eq_refl) as [_ H].
  exact (f_equal fst H).
Defined.

(** X2 at a concrete input: the seed names stay unique. *)
Lemma add_sample_keeps_family_names_on_seeds :
  NoDup (map Attribution.name
           (Attribution.families (Attribution.db (Runs.seeded Runs.empty_world)))) /\
  NoDup (map Attribution.name
           (Attribution.families
              (Attribution.db
                 (snd (Attribution.add_sample_in Runs.dump0
                         (Return "2024-01-01T00:00:00"%string) "new_family"%string
                         [("ela_mean"%string, 20%R)]
                         (Runs.seeded Runs.empty_world)))))).
Proof.
  assert (H : NoDup (map Attribution.name
                       (Attribution.families
                          (Attribution.db (Runs.seeded Runs.empty_world))))).
  { cbn. repeat constructor; cbn; intuition discriminate. }
  split; [exact H|].
  exact (proj2 (add_sample_keeps_family_names Runs.dump0
                  (Return "2024-01-01T00:00:00"%string) "new_family"%string
                  [("ela_mean"%string, 20%R)] (Runs.seeded Runs.empty_world)) H).
Defined.

(** X3 at a concrete input: one sample for the seed family
    [diffusion_inpaint]. *)
Lemma add_sample_raises_total_by_one_on_seeds :
  exists after,
    fst (Attribution.get_family_stats
           (snd (Attribution.add_sample Runs.dump0 "diffusion_inpaint"%string
                   [("ela_mean"%string, 20%R)] (Runs.seeded Runs.empty_world))))
    = Return after /\
    Attribution.total_families after = 3%nat /\
    Attribution.total_samples after = 1%Z.
Proof.
  destruct (add_sample_raises_total_by_one Runs.dump0
              Attribution.datetime_now_isoformat "diffusion_inpaint"%string
              [("ela_mean"%string, 20%R)] (Runs.seeded Runs.empty_world)
              1%nat _ eq_refl)
    as (before & after & Hb & Ha & Hfam & Htot & _).
  - cbn. lia.
  - exists after. split; [exact Ha|].
    cbn in Hb. inversion Hb; subst before. cbn in Hfam, Htot.
    split; assumption.
Defined.

(** X4 at a concrete input. *)
Lemma add_sample_on_count_minus_one_stuck :
  fst (Attribution.add_sample Runs.dump0 "stuck"%string [("ela_mean"%string, 7%R)]
         Ranking.stuck_family) = Return false.
Proof.
  exact (proj1 (add_sample_on_count_minus_one Runs.dump0
                  Attribution.datetime_now_isoformat "stuck"%string
                  [("ela_mean"%string, 7%R)] Ranking.stuck_family O _ "ela_mean"%string
                  eq_refl eq_refl eq_refl eq_refl)).
Defined.

(* ================================================================== *)
(** * Further properties of [match] *)

Section MatchMore.

Import Attribution.
Import Cosine.
Import Ranking.

Open Scope R_scope.

Lemma match_value (m : Machine) (feats : Features) (topk : Z) :
  exists n,
    match_ feats topk m
    = (Return (firstn n (sort_desc (scored feats (families (db m))))), m) /\
    (feats <> [] -> (0 <= topk)%Z -> n = Z.to_nat topk).
Proof.
  unfold match_, bind, get_state, ret. destruct feats as [|kv rest].
  - exists O. split; [reflexivity|]. intros H. now contradiction H.
  - rewrite match_results_scored.
    destruct (slice_to_prefix topk (sort_desc (scored (kv :: rest) (families (db m)))))
      as (n & Hn & Hpos & _).
    exists n. rewrite Hn. split; [reflexivity|]. intros _ Hk. now apply Hpos.
Qed.

Lemma in_firstn (A : Type) (n : nat) (x : A) (l : list A) :
  In x (firstn n l) -> In x l.
Proof.
  intros H. rewrite <- (firstn_skipn n l). apply in_or_app. now left.
Qed.

Lemma ranked_entry (feats : Features) (fams : list Family) (n : nat)
    (e : string * R) :
  In e (firstn n (sort_desc (scored feats fams))) ->
  exists family, In family fams /\ overlap_score feats family = Some e.
Proof.
  intros He. apply in_firstn in He.
  apply (Permutation_in _ (sort_desc_perm _)) in He.
  unfold scored in He. apply in_flat_map in He.
  destruct He as (family & Hin & Hsc). exists family. split; [exact Hin|].
  destruct (overlap_score feats family) as [e'|]; simpl in Hsc;
    [destruct Hsc as [->|[]]; reflexivity|contradiction].
Qed.

(** ** The Cauchy-Schwarz bound *)

Lemma cauchy_schwarz_step (x y d A B : R) :
  0 <= A -> 0 <= B -> d * d <= A * B ->
  (x * y + d) * (x * y + d) <= (x * x + A) * (y * y + B).
Proof.
  intros HA HB Hd.
  assert (Hcross : 2 * (x * y) * d <= x * x * B + y * y * A).
  { destruct (Rle_dec (2 * (x * y) * d) 0) as [Hneg|Hpos].
    - assert (0 <= x * x * B) by (apply Rmult_le_pos; nra).
      assert (0 <= y * y * A) by (apply Rmult_le_pos; nra).
      lra.
    - apply Rnot_le_lt in Hpos.
      assert (Hsq : (2 * (x * y) * d) * (2 * (x * y) * d)
                    <= (x * x * B + y * y * A) * (x * x * B + y * y * A)).
      { assert (H1 : (x * y) * (x * y) * (d * d) <= (x * y) * (x * y) * (A * B))
          by (apply Rmult_le_compat_l; nra).
        replace (2 * (x * y) * d * (2 * (x * y) * d))
          with (4 * ((x * y) * (x * y) * (d * d))) by ring.
        apply Rle_trans with (4 * ((x * y) * (x * y) * (A * B))); [lra|].
        replace (4 * ((x * y) * (x * y) * (A * B)))
          with (4 * ((x * x * B) * (y * y * A))) by ring.
        generalize (x * x * B) (y * y * A). intros u v.
        pose proof (Rle_0_sqr (u - v)) as H2. unfold Rsqr in H2.
        replace ((u + v) * (u + v)) with (4 * (u * v) + (u - v) * (u - v)) by ring.
        lra. }
      assert (0 <= x * x * B) by (apply Rmult_le_pos; nra).
      assert (0 <= y * y * A) by (apply Rmult_le_pos; nra).
      nra. }
  nra.
Qed.

Lemma dot_product_fold_right (q f : list R) :
  dot_product q f
  = fold_right Rplus 0 (map (fun xy => fst xy * snd xy) (combine q f)).
Proof. unfold dot_product. apply py_sum_fold_right. Qed.

Lemma squares_fold_right_nonneg (v : list R) :
  0 <= fold_right Rplus 0 (map (fun x => x * x) v).
Proof. rewrite <- py_sum_fold_right. apply sum_squares_nonneg. Qed.

Lemma cauchy_schwarz (q f : list R) :
  dot_product q f * dot_product q f
  <= py_sum (map (fun x => x * x) q) * py_sum (map (fun x => x * x) f).
Proof.
  rewrite dot_product_fold_right, !py_sum_fold_right.
  revert f. induction q as [|x q IH]; intros [|y f]; simpl.
  - lra.
  - lra.
  - pose proof (squares_fold_right_nonneg (x :: q)) as H. simpl in H. nra.
  - apply cauchy_schwarz_step.
    + apply squares_fold_right_nonneg.
    + apply squares_fold_right_nonneg.
    + apply IH.
Qed.

Lemma cosine_bounds (q f : list R) : -1 < cosine q f < 1.
Proof.
  unfold cosine, norm.
  pose proof (cauchy_schwarz q f) as Hcs.
  pose proof (sum_squares_nonneg q) as HA.
  pose proof (sum_squares_nonneg f) as HB.
  set (A := py_sum (map (fun x => x * x) q)) in *.
  set (B := py_sum (map (fun x => x * x) f)) in *.
  set (d := dot_product q f) in *.
  pose proof (sqrt_pos A) as Hp. pose proof (sqrt_pos B) as Hq.
  pose proof (sqrt_sqrt A HA) as HpA. pose proof (sqrt_sqrt B HB) as HqB.
  set (p := sqrt A) in *. set (r := sqrt B) in *.
  assert (Hpr : 0 <= p * r) by (apply Rmult_le_pos; assumption).
  assert (Hd : d * d <= (p * r) * (p * r)) by nra.
  assert (Hlt : - (p * r) <= d <= p * r) by (split; nra).
  assert (Hden : p * r < (p + 1e-8) * (r + 1e-8)) by nra.
  assert (Hpos : 0 < (p + 1e-8) * (r + 1e-8)) by nra.
  split.
  - apply Rmult_lt_reg_r with ((p + 1e-8) * (r + 1e-8)); [exact Hpos|].
    unfold Rdiv. rewrite Rmult_assoc, Rinv_l by lra. lra.
  - apply Rmult_lt_reg_r with ((p + 1e-8) * (r + 1e-8)); [exact Hpos|].
    unfold Rdiv. rewrite Rmult_assoc, Rinv_l by lra. lra.
Qed.

Lemma restricted_nonneg (keys : list string) (d : Features) :
  nonnegative d -> Forall (fun x => 0 <= x) (restricted keys d).
Proof.
  intros Hd. unfold restricted. apply Forall_forall. intros x Hx.
  apply in_map_iff in Hx. destruct Hx as (k & <- & _).
  unfold dict_get_default.
  assert (H : forall v, dict_get k d = Some v -> 0 <= v).
  { induction Hd as [|[k' v'] d' Hv _ IH]; simpl; intros v Hg; [discriminate|].
    destruct (String.eqb k k'); [inversion Hg; subst; exact Hv|now apply IH]. }
  destruct (dict_get k d) as [v|]; [now apply H|lra].
Qed.

Lemma dot_product_nonneg (q f : list R) :
  Forall (fun x => 0 <= x) q -> Forall (fun x => 0 <= x) f ->
  0 <= dot_product q f.
Proof.
  rewrite dot_product_fold_right. intros Hq. revert f.
  induction Hq as [|x q Hx _ IH]; intros f Hf; simpl; [lra|].
  destruct Hf as [|y f Hy Hf]; simpl; [lra|].
  specialize (IH f Hf). nra.
Qed.

Lemma cosine_nonneg (q f : list R) :
  Forall (fun x => 0 <= x) q -> Forall (fun x => 0 <= x) f ->
  0 <= cosine q f.
Proof.
  intros Hq Hf. unfold cosine, norm.
  pose proof (dot_product_nonneg q f Hq Hf).
  pose proof (sqrt_pos (py_sum (map (fun x => x * x) q))).
  pose proof (sqrt_pos (py_sum (map (fun x => x * x) f))).
  apply Rmult_le_pos; [assumption|].
  left. apply Rinv_0_lt_compat. nra.
Qed.


(** ** Names and number of the results *)

Lemma scored_names (feats : Features) (fams : list Family) :
  map fst (scored feats fams) = map name (overlapping feats fams).
Proof.
  unfold scored, overlapping.
  induction fams as [|family rest IH]; simpl; auto.
  unfold overlap_score at 1, overlaps at 1.
  change (match features_mean family with Some d => d | None => [] end)
    with (Runs.mean_of family).
  destruct (common_keys feats (Runs.mean_of family)); simpl; now rewrite IH.
Qed.

Lemma filter_names_NoDup (keep : Family -> bool) (fams : list Family) :
  NoDup (map name fams) -> NoDup (map name (filter keep fams)).
Proof.
  induction fams as [|family rest IH]; simpl; intros H; [constructor|].
  inversion H as [|? ? Hnotin Hrest]; subst.
  destruct (keep family); simpl; [|now apply IH].
  constructor; [|now apply IH].
  intros Hin. apply Hnotin. apply in_map_iff in Hin.
  destruct Hin as (g & Hg & Hgin). apply filter_In in Hgin.
  apply in_map_iff. exists g. tauto.
Qed.

Lemma firstn_NoDup (A : Type) (n : nat) (l : list A) :
  NoDup l -> NoDup (firstn n l).
Proof.
  intros H. rewrite <- (firstn_skipn n l) in H.
  now apply NoDup_app_remove_r in H.
Qed.

(** X6: the names that [match] returns are names of stored families;
    when the stored names are unique no name is returned twice; and for a
    non-empty query and [topK >= 0] the number of results is the smaller
    of [topK] and the number of families that share a key with the
    query. *)
Theorem match_returns_each_family_once (m : Machine) (feats : Features) (topk : Z) :
  exists r,
    match_ feats topk m = (Return r, m) /\
    (forall nm, In nm (map fst r) -> In nm (map name (families (db m)))) /\
    (NoDup (map name (families (db m))) -> NoDup (map fst r)) /\
    (feats <> [] -> (0 <= topk)%Z ->
     List.length r
     = Nat.min (Z.to_nat topk) (List.length (overlapping feats (families (db m))))).
Proof.
  destruct (match_value m feats topk) as (n & Hr & Hn).
  eexists. split; [exact Hr|].
  assert (Hperm : Permutation
                    (map fst (sort_desc (scored feats (families (db m)))))
                    (map name (overlapping feats (families (db m))))).
  { rewrite <- scored_names. apply Permutation_map, sort_desc_perm. }
  split; [|split].
  - intros nm Hin. rewrite <- firstn_map in Hin. apply in_firstn in Hin.
    apply (Permutation_in _ Hperm) in Hin.
    apply in_map_iff in Hin. destruct Hin as (g & <- & Hg).
    apply filter_In in Hg. apply in_map. tauto.
  - intros Hnd. rewrite <- firstn_map. apply firstn_NoDup.
    eapply Permutation_NoDup; [symmetry; exact Hperm|].
    now apply filter_names_NoDup.
  - intros Hne Hk. rewrite (Hn Hne Hk), length_firstn.
    rewrite (Permutation_length (sort_desc_perm _)).
    rewrite <- (length_map fst), scored_names, length_map. reflexivity.
Qed.

End MatchMore.

(* ================================================================== *)
(** * Further properties of the scorer and of feature extraction *)

Section DetectorMore.

Import Detector.
Import Extract.

Open Scope R_scope.
Open Scope string_scope.

Lemma exp_monotone (u v : R) : u <= v -> exp u <= exp v.
Proof.
  intros [H| ->]; [left; now apply exp_increasing|right; reflexivity].
Qed.

Lemma logistic_monotone (u v : R) :
  u <= v -> 1 / (1 + exp (- u)) <= 1 / (1 + exp (- v)).
Proof.
  intros H.
  pose proof (exp_pos (- u)). pose proof (exp_pos (- v)).
  assert (exp (- v) <= exp (- u)) by (apply exp_monotone; lra).
  unfold Rdiv. rewrite !Rmult_1_l.
  apply Rinv_le_contravar; lra.
Qed.

Lemma logistic_at_zero : 1 / (1 + exp (- 0)) = 1 / 2.
Proof. rewrite Ropp_0, exp_0. lra. Qed.

Lemma score_value (weights : dict R) (feats : dict pyval) (x steepness threshold : R) :
  weighted_sum weights feats = Return (Float x) ->
  dict_get "steepness" weights = Some steepness ->
  dict_get "threshold" weights = Some threshold ->
  score weights feats = Float (1 / (1 + exp (- (steepness * (x - threshold))))).
Proof.
  intros Hx Hs Ht. unfold score, score_body, rbind, weight. rewrite Hx, Hs, Ht.
  cbn. replace 1.0 with 1 by lra. replace 0.0 with 0 by lra.
  rewrite clip_sigmoid. do 4 f_equal. lra.
Qed.

(** X7: with a steepness that is not negative, a feature vector whose
    weighted sum is a number scores at least 0.5 when the sum is at or
    above the threshold, at most 0.5 when it is at or below, and 0.5 on
    the threshold itself.  So a score above 0.5 tells that the sum is
    above the threshold, and a score below 0.5 that it is below. *)
Theorem score_crosses_half_at_threshold (weights : dict R) (feats : dict pyval)
    (x steepness threshold : R) :
  weighted_sum weights feats = Return (Float x) ->
  dict_get "steepness" weights = Some steepness ->
  dict_get "threshold" weights = Some threshold ->
  0 <= steepness ->
  exists s,
    score weights feats = Float s /\
    (threshold <= x -> 0.5 <= s) /\
    (x <= threshold -> s <= 0.5) /\
    (x = threshold -> s = 0.5) /\
    (0.5 < s -> threshold < x) /\
    (s < 0.5 -> x < threshold).
Proof.
  intros Hx Hs Ht Hpos. rewrite (score_value _ _ _ _ _ Hx Hs Ht).
  eexists. split; [reflexivity|].
  replace 0.5 with (1 / 2) by lra. rewrite <- logistic_at_zero.
  assert (Hup : threshold <= x ->
                1 / (1 + exp (- 0))
                <= 1 / (1 + exp (- (steepness * (x - threshold))))).
  { intros H. apply logistic_monotone. apply Rmult_le_pos; lra. }
  assert (Hdown : x <= threshold ->
                  1 / (1 + exp (- (steepness * (x - threshold))))
                  <= 1 / (1 + exp (- 0))).
  { intros H. apply logistic_monotone.
    replace (steepness * (x - threshold)) with (- (steepness * (threshold - x)))
      by ring.
    assert (0 <= steepness * (threshold - x)) by (apply Rmult_le_pos; lra). lra. }
  split; [exact Hup|]. split; [exact Hdown|].
  split; [intros H; apply Rle_antisym; [apply Hdown|apply Hup]; lra|].
  split; intros H.
  - destruct (Rlt_le_dec threshold x) as [Hlt|Hle]; [exact Hlt|].
    specialize (Hdown Hle). lra.
  - destruct (Rlt_le_dec x threshold) as [Hlt|Hle]; [exact Hlt|].
    specialize (Hup Hle). lra.
Qed.

Lemma weighted_sum_of_vector (weights : dict R) (e f l j wf we wl wj : R) :
  dict_get "fft_weight" weights = Some wf ->
  dict_get "ela_weight" weights = Some we ->
  dict_get "lap_weight" weights = Some wl ->
  dict_get "jpeg_weight" weights = Some wj ->
  weighted_sum weights (feature_vector e f l j)
  = Return (Float (wf * f + we * (e / 50.0) + wl * (l / 200.0) - wj * j)).
Proof.
  intros Hf He Hl Hj. unfold weighted_sum, rbind, weight, feature.
  rewrite Hf, He, Hl, Hj. reflexivity.
Qed.


Section FeaturesFacts.

Variable jpeg_roundtrip : Z -> Ela.Image -> result Ela.Image.
Variable fft_highfreq_ratio : Ela.Image -> result R.
Variable laplacian_variance : Ela.Image -> result R.
Variable jpeg_quant_score : Ela.Image -> result R.

Local Abbreviation feats_of :=
  (features jpeg_roundtrip fft_highfreq_ratio laplacian_variance jpeg_quant_score).
Local Abbreviation body_of :=
  (features_body jpeg_roundtrip fft_highfreq_ratio laplacian_variance jpeg_quant_score).
Local Abbreviation analyze_of :=
  (analyze jpeg_roundtrip fft_highfreq_ratio laplacian_variance jpeg_quant_score).

Lemma features_is_vector (im : Ela.Image) :
  exists e f l j, feats_of im = feature_vector e f l j.
Proof.
  unfold features, features_body, rbind.
  destruct (Ela.error_level_analysis jpeg_roundtrip im 90) as [ela|];
    [|now exists 0.0, 0.5, 100.0, 0.5].
  destruct (fft_highfreq_ratio im); [|now exists 0.0, 0.5, 100.0, 0.5].
  destruct (laplacian_variance im); [|now exists 0.0, 0.5, 100.0, 0.5].
  destruct (jpeg_quant_score im); [|now exists 0.0, 0.5, 100.0, 0.5].
  eauto.
Qed.

(** X9: [features] never raises and always returns the four keys with
    numbers, so under the default weights [analyze] never takes the
    neutral 0.5 branch of [score]: its score is the logistic value of the
    weighted sum, a number between 0 and 1.  When any extractor raises,
    the features are the fixed default vector and the score is
    [1 / (1 + exp 0.9)], which is below 0.5. *)
Theorem analyze_takes_logistic_branch (im : Ela.Image) :
  (exists e f l j,
     snd (analyze_of HEURISTIC_WEIGHTS im) = feature_vector e f l j /\
     fst (analyze_of HEURISTIC_WEIGHTS im)
     = Float (1 / (1 + exp (- (4.0 * (0.9 * f + 0.6 * (e / 50.0)
                                      + 0.2 * (l / 200.0) - 0.15 * j - 0.7)))))) /\
  (exists s, fst (analyze_of HEURISTIC_WEIGHTS im) = Float s /\ 0 <= s <= 1) /\
  (forall err, body_of im = Raise err ->
     snd (analyze_of HEURISTIC_WEIGHTS im) = default_features /\
     fst (analyze_of HEURISTIC_WEIGHTS im) = Float (1 / (1 + exp 0.9)) /\
     1 / (1 + exp 0.9) < 0.5).
Proof.
  assert (Hval : forall e f l j,
            score HEURISTIC_WEIGHTS (feature_vector e f l j)
            = Float (1 / (1 + exp (- (4.0 * (0.9 * f + 0.6 * (e / 50.0)
                                             + 0.2 * (l / 200.0) - 0.15 * j - 0.7)))))).
  { intros e f l j.
    exact (score_value HEURISTIC_WEIGHTS _ _ _ _
             (weighted_sum_of_vector HEURISTIC_WEIGHTS e f l j _ _ _ _
                eq_refl eq_refl eq_refl eq_refl) eq_refl eq_refl). }
  unfold analyze. cbn [fst snd].
  destruct (features_is_vector im) as (e & f & l & j & Hv).
  split; [|split].
  - exists e, f, l, j. rewrite Hv. split; [reflexivity|apply Hval].
  - rewrite Hv, Hval. eexists. split; [reflexivity|].
    match goal with |- _ <= 1 / (1 + exp ?t) <= _ =>
      pose proof (sigmoid_open_unit_interval t) end.
    lra.
  - intros err Herr. unfold features. rewrite Herr.
    split; [reflexivity|].
    change default_features with (feature_vector 0.0 0.5 100.0 0.5).
    rewrite Hval.
    replace (- (4.0 * (0.9 * 0.5 + 0.6 * (0.0 / 50.0) + 0.2 * (100.0 / 200.0)
                       - 0.15 * 0.5 - 0.7))) with 0.9 by lra.
    split; [reflexivity|].
    pose proof (exp_increasing 0 0.9 ltac:(lra)) as Hexp. rewrite exp_0 in Hexp.
    apply Rmult_lt_reg_r with (1 + exp 0.9); [lra|].
    unfold Rdiv. rewrite Rmult_assoc, Rinv_l by lra. lra.
Qed.

(** X10: a single-band image never reaches the extractors' values: the
    error level analysis raises on it, so [features] returns the default
    vector whatever the other three extractors compute. *)
Theorem features_of_single_band_image (im : Ela.Image) (band : list Z) :
  Ela.bands im = [band] ->
  (forall recompressed, jpeg_roundtrip 90 im = Return recompressed ->
                        Ela.bands recompressed <> []) ->
  feats_of im = default_features.
Proof.
  intros Hband Hrec. unfold features, features_body, rbind, Ela.error_level_analysis.
  destruct (jpeg_roundtrip 90 im) as [recompressed|] eqn:Hcodec; [|reflexivity].
  specialize (Hrec recompressed eq_refl).
  unfold Ela.difference. rewrite Hband. cbn [Ela.bands].
  destruct (Ela.bands recompressed) as [|b bs]; [contradiction|].
  reflexivity.
Qed.

End FeaturesFacts.

End DetectorMore.

(** X7 at a concrete input: the feature vector of the repository's test. *)
Lemma score_crosses_half_on_test_features :
  exists s,
    Detector.score Detector.HEURISTIC_WEIGHTS (Extract.feature_vector 15 0.7 150 0.4)
    = Detector.Float s /\
    (0.5 <= s)%R.
Proof.
  destruct (score_crosses_half_at_threshold Detector.HEURISTIC_WEIGHTS
              (Extract.feature_vector 15 0.7 150 0.4) 0.9 4.0 0.7)
    as (s & Hs & Hup & _).
  - unfold Detector.weighted_sum, Detector.rbind, Detector.weight, Detector.feature.
    cbn. do 2 f_equal. lra.
  - reflexivity.
  - reflexivity.
  - lra.
  - exists s. split; [exact Hs|]. apply Hup. lra.
Defined.


(** X10 at a concrete input: one grey pixel. *)
Lemma features_of_grey_pixel :
  Extract.features Ela.lossless_codec (Extract.const_extractor 0.9)
    (Extract.const_extractor 500) (Extract.const_extractor 0.1) Ela.grey_pixel
  = Extract.default_features.
Proof.
  apply (features_of_single_band_image Ela.lossless_codec
           (Extract.const_extractor 0.9) (Extract.const_extractor 500)
           (Extract.const_extractor 0.1) Ela.grey_pixel [10%Z] eq_refl).
  intros recompressed H. inversion H; subst. discriminate.
Defined.

(* ================================================================== *)
(** * Properties of the face detector *)

Section FaceDetectorFacts.

Import FaceDetector.

Open Scope R_scope.

Lemma argmax_is_largest (probs : list R) (i : nat) :
  argmax probs = Some i ->
  (i < List.length probs)%nat /\
  Forall (fun p => p <= nth i probs 0) probs.
Proof.
  revert i. induction probs as [|p rest IH]; intros i H; [discriminate|].
  simpl in H. destruct (argmax rest) as [j|] eqn:Hj.
  - destruct (IH j eq_refl) as [Hlt Hall].
    destruct (Rlt_dec p (nth j rest 0)) as [Hp|Hp]; inversion H; subst; simpl.
    + split; [lia|]. constructor; [lra|exact Hall].
    + split; [lia|]. constructor; [lra|].
      eapply Forall_impl; [|exact Hall]. intros q Hq. simpl in Hq. lra.
  - inversion H; subst. destruct rest as [|q rest']; simpl.
    + split; [lia|]. constructor; [lra|constructor].
    + simpl in Hj. destruct (argmax rest'); [destruct (Rlt_dec _ _)|]; discriminate.
Qed.

Variable Img : Type.
Variable width : Img -> Z.
Variable height : Img -> Z.
Variable crop : Img -> Z * Z * Z * Z -> Img.
Variable available : bool.
Variable mtcnn_detect : Img -> result (option (list (R * R * R * R)) * list R).

Local Abbreviation detect :=
  (detect_largest_face width height crop available mtcnn_detect).

(** X11: [detect_largest_face] always returns.  When it reports no face
    it hands back the input image with confidence 0.0.  When it reports a
    face, the detector was available and returned boxes, the crop
    rectangle is non-empty and lies inside the image, and the confidence
    is the largest of the detector's probabilities. *)
Theorem detect_largest_face_crop_is_inside (pil_im : Img) :
  (snd (fst (detect_largest_face width height crop available mtcnn_detect pil_im))
   = false ->
     fst (fst (detect pil_im)) = pil_im /\ snd (detect pil_im) = 0) /\
  (snd (fst (detect_largest_face width height crop available mtcnn_detect pil_im))
   = true ->
     exists boxes probs x1 y1 x2 y2,
       available = true /\
       mtcnn_detect pil_im = Return (Some boxes, probs) /\
       fst (fst (detect pil_im)) = crop pil_im (x1, y1, x2, y2) /\
       (0 <= x1 < x2)%Z /\ (x2 <= width pil_im)%Z /\
       (0 <= y1 < y2)%Z /\ (y2 <= height pil_im)%Z /\
       In (snd (detect pil_im)) probs /\
       Forall (fun p => p <= snd (detect pil_im)) probs).
Proof.
  unfold detect_largest_face.
  destruct available; cbn [negb];
    [|split; [intros _; split; [reflexivity|cbn; lra]|discriminate]].
  destruct (mtcnn_detect pil_im) as [[[[|box boxes]|] probs]|err];
    try (split; [intros _; split; [reflexivity|cbn; lra]|discriminate]).
  destruct (argmax probs) as [best_i|] eqn:Hbest;
    [|split; [intros _; split; [reflexivity|cbn; lra]|discriminate]].
  destruct (nth_error (box :: boxes) best_i) as [[[[bx1 by1] bx2] by2]|];
    [|split; [intros _; split; [reflexivity|cbn; lra]|discriminate]].
  destruct (nth_error probs best_i) as [conf|] eqn:Hconf;
    [|split; [intros _; split; [reflexivity|cbn; lra]|discriminate]].
  destruct ((Z.min (width pil_im) (py_int bx2) <=? Z.max 0 (py_int bx1))
            || (Z.min (height pil_im) (py_int by2) <=? Z.max 0 (py_int by1)))%Z
    eqn:Hbox;
    [split; [intros _; split; [reflexivity|cbn; lra]|discriminate]|].
  split; [discriminate|]. intros _. cbn [fst snd].
  apply orb_false_iff in Hbox. destruct Hbox as [Hx Hy].
  apply Z.leb_gt in Hx. apply Z.leb_gt in Hy.
  destruct (argmax_is_largest probs best_i Hbest) as [Hlt Hall].
  assert (Hnth : nth best_i probs 0 = conf)
    by (apply nth_error_nth; exact Hconf).
  rewrite Hnth in Hall.
  exists (box :: boxes), probs.
  exists (Z.max 0 (py_int bx1)), (Z.max 0 (py_int by1)).
  exists (Z.min (width pil_im) (py_int bx2)), (Z.min (height pil_im) (py_int by2)).
  repeat split; try reflexivity; try lia.
  - eapply nth_error_In. exact Hconf.
  - exact Hall.
Qed.

(** X12: the quality gate behind the detector.  An image is accepted for
    learning only if the detector reported a face whose confidence
    reaches the threshold and whose crop has both sides at least the
    minimum side; when the detector is unavailable, raises or returns no
    boxes, the image is rejected with the no-face note. *)
Theorem detect_and_gate_needs_a_face (cfg : Filtering.Config) (im : Img) :
  (fst (detect_and_gate width height crop available mtcnn_detect cfg im) = true ->
     snd (fst (detect im)) = true /\
     snd (detect im) >= Filtering.FACE_CONFIDENCE_THRESHOLD cfg /\
     (Filtering.QUALITY_MIN_SIDE cfg <= width (fst (fst (detect im))))%Z /\
     (Filtering.QUALITY_MIN_SIDE cfg <= height (fst (fst (detect im))))%Z) /\
  (snd (fst (detect im)) = false ->
     fst (detect_and_gate width height crop available mtcnn_detect cfg im) = false /\
     In Filtering.NoteNoFace
        (Filtering.notes
           (snd (detect_and_gate width height crop available mtcnn_detect cfg im)))) /\
  ((available = false \/ (exists err, mtcnn_detect im = Raise err)
    \/ (exists probs, mtcnn_detect im = Return (None, probs))) ->
     snd (fst (detect im)) = false).
Proof.
  split; [|split].
  - unfold detect_and_gate.
    destruct (detect im) as [[face found] conf]. cbn [fst snd].
    unfold Filtering.accept_image, Filtering.effective_min_side. cbn [fst].
    intros H. apply andb_true_iff in H. destruct H as [H Hside].
    apply andb_true_iff in H. destruct H as [Hfound Hconf].
    apply Rgeb_true in Hconf. apply Z.leb_le in Hside.
    repeat split; try assumption; lia.
  - unfold detect_and_gate.
    destruct (detect im) as [[face found] conf]. cbn [fst snd].
    intros ->. unfold Filtering.accept_image. cbn.
    split; [reflexivity|].
    destruct (_ <=? _)%Z; cbn; auto.
  - unfold detect_largest_face.
    intros [->|[[err ->]|[probs ->]]]; [reflexivity| |];
      destruct available; reflexivity.
Qed.

End FaceDetectorFacts.

(* ================================================================== *)
(** * Bounds of the error level analysis *)

Section ElaMore.

Import Ela.

Open Scope R_scope.

Lemma fold_left_Zmax_ge (l : list Z) (a : Z) : (a <= fold_left Z.max l a)%Z.
Proof.
  revert a. induction l as [|x l IH]; intros a; simpl; [lia|].
  specialize (IH (Z.max a x)). lia.
Qed.

Lemma scale_at_least_one (bs : list (list Z)) :
  (1 <= fold_left (fun s b => Z.max s (band_max b)) bs 1%Z)%Z.
Proof.
  assert (H : forall a, (a <= fold_left (fun s b => Z.max s (band_max b)) bs a)%Z).
  { induction bs as [|b bs IH]; intros a; simpl; [lia|].
    specialize (IH (Z.max a (band_max b))). lia. }
  apply H.
Qed.

Lemma sum_abs_bounds (l : list Z) :
  Forall (fun p => 0 <= p <= 255)%Z l ->
  (0 <= fold_right Z.add 0 (map Z.abs l) <= 255 * Z.of_nat (List.length l))%Z.
Proof.
  induction 1 as [|p l Hp _ IH]; simpl List.length; simpl fold_right; [simpl; lia|].
  rewrite Nat2Z.inj_succ. lia.
Qed.

Lemma mean_abs_bounds (im : Image) :
  Forall (fun p => 0 <= p <= 255)%Z (samples im) -> 0 <= mean_abs im <= 255.
Proof.
  intros H. unfold mean_abs. rewrite fold_left_Zadd.
  pose proof (sum_abs_bounds _ H) as [Hlo Hhi].
  set (total := fold_right Z.add 0%Z (map Z.abs (samples im))) in *.
  replace (0 + total)%Z with total by lia.
  destruct (samples im) as [|p rest] eqn:Hs.
  - simpl in Hhi. assert (total = 0%Z) by lia.
    replace total with 0%Z by lia. simpl. unfold Rdiv. rewrite Rinv_0. lra.
  - rewrite INR_IZR_INZ.
    set (n := Z.of_nat (List.length (p :: rest))) in *.
    assert (Hn : (0 < n)%Z) by (unfold n; simpl List.length; lia).
    apply IZR_lt in Hn. apply IZR_le in Hlo. apply IZR_le in Hhi.
    rewrite mult_IZR in Hhi.
    split.
    + apply Rmult_le_pos; [exact Hlo|]. left. now apply Rinv_0_lt_compat.
    + apply Rmult_le_reg_r with (IZR n); [exact Hn|].
      unfold Rdiv. rewrite Rmult_assoc, Rinv_l by lra. lra.
Qed.

Lemma enhanced_samples_in_range (scale : Z) (im : Image) :
  Forall (fun p => 0 <= p <= 255)%Z (samples (enhance_brightness scale im)).
Proof.
  unfold samples, enhance_brightness. cbn [bands].
  apply Forall_forall. intros p Hp. apply in_concat in Hp.
  destruct Hp as (band & Hband & Hp). apply in_map_iff in Hband.
  destruct Hband as (b & <- & _). apply in_map_iff in Hp.
  destruct Hp as (q & <- & _). lia.
Qed.

Section Codec.

Variable jpeg_roundtrip : Z -> Image -> result Image.

(** X13: whenever [error_level_analysis] returns, every sample of the
    returned image lies in 0..255 and the returned scalar lies in
    [0, 255], whatever the codec did. *)
Theorem error_level_analysis_is_bounded (im : Image) (quality : Z)
    (ela_img : Image) (mean : R) :
  error_level_analysis jpeg_roundtrip im quality = Return (ela_img, mean) ->
  Forall (fun p => 0 <= p <= 255)%Z (samples ela_img) /\
  mean = mean_abs ela_img /\
  0 <= mean <= 255.
Proof.
  unfold error_level_analysis.
  destruct (jpeg_roundtrip quality im) as [recompressed|]; [|discriminate].
  set (diff := difference im recompressed).
  pose proof (scale_at_least_one (bands diff)) as Hscale.
  assert (Hcase : forall bs,
            bs = bands diff ->
            Return (if (0 <? fold_left (fun s b => Z.max s (band_max b)) bs 1%Z)%Z
                    then enhance_brightness
                           (fold_left (fun s b => Z.max s (band_max b)) bs 1%Z) diff
                    else diff,
                    mean_abs
                      (if (0 <? fold_left (fun s b => Z.max s (band_max b)) bs 1%Z)%Z
                       then enhance_brightness
                              (fold_left (fun s b => Z.max s (band_max b)) bs 1%Z) diff
                       else diff))
            = Return (ela_img, mean) ->
            Forall (fun p => 0 <= p <= 255)%Z (samples ela_img) /\
            mean = mean_abs ela_img /\ 0 <= mean <= 255).
  { intros bs -> H.
    destruct (Z.ltb_spec 0 (fold_left (fun s b => Z.max s (band_max b)) (bands diff) 1%Z));
      [|lia].
    inversion H; subst.
    pose proof (enhanced_samples_in_range
                  (fold_left (fun s b => Z.max s (band_max b)) (bands diff) 1%Z) diff).
    split; [assumption|]. split; [reflexivity|]. now apply mean_abs_bounds. }
  destruct (bands diff) as [|b1 [|b2 rest]] eqn:Hb; intros H.
  - apply (Hcase [] eq_refl H).
  - discriminate.
  - apply (Hcase (b1 :: b2 :: rest) eq_refl H).
Qed.

End Codec.

End ElaMore.

(** X13 at a concrete input: the RGB pixel whose red sample moves by one. *)
Lemma error_level_analysis_is_bounded_on_pixel :
  (0 <= Ela.mean_abs (Ela.mkImage [[255]; [0]; [0]]%Z) <= 255)%R.
Proof.
  exact (proj2 (proj2 (error_level_analysis_is_bounded Ela.shifting_codec
                         Ela.rgb_pixel 90 (Ela.mkImage [[255]; [0]; [0]]%Z)
                         (Ela.mean_abs (Ela.mkImage [[255]; [0]; [0]]%Z)) eq_refl))).
Defined.

(* ================================================================== *)
(** * The high-frequency ratio lies in (0, 1] *)

Section FrequencyFacts.

Import Frequency.

Open Scope R_scope.

Lemma row_sum_nonneg (row : list R) : nonneg_row row -> 0 <= row_sum row.
Proof. induction 1; simpl; [lra|]. unfold row_sum in *. lra. Qed.

Lemma row_sum_app (a b : list R) : row_sum (a ++ b) = row_sum a + row_sum b.
Proof.
  unfold row_sum. induction a as [|x a IH]; simpl; [lra|]. rewrite IH. lra.
Qed.

Lemma Forall_slice (A : Type) (P : A -> Prop) (start stop : Z) (l : list A) :
  Forall P l -> Forall P (py_slice start stop l).
Proof.
  intros H. unfold py_slice. apply Forall_forall. intros x Hx.
  rewrite Forall_forall in H. apply H.
  apply in_firstn in Hx.
  rewrite <- (firstn_skipn (slice_index start (List.length l)) l).
  apply in_or_app. now right.
Qed.

Lemma slice_sum_le (start stop : Z) (row : list R) :
  nonneg_row row -> 0 <= row_sum (py_slice start stop row) <= row_sum row.
Proof.
  intros H. split; [apply row_sum_nonneg; now apply Forall_slice|].
  unfold py_slice.
  set (a := slice_index start (List.length row)).
  set (b := slice_index stop (List.length row)).
  rewrite <- (firstn_skipn a row) at 2. rewrite row_sum_app.
  rewrite <- (firstn_skipn (b - a) (skipn a row)) at 2. rewrite row_sum_app.
  assert (H1 : nonneg_row (firstn a row)).
  { apply Forall_forall. intros x Hx. apply in_firstn in Hx.
    unfold nonneg_row in H. rewrite Forall_forall in H. now apply H. }
  assert (H2 : nonneg_row (skipn (b - a) (skipn a row))).
  { apply Forall_forall. intros x Hx.
    unfold nonneg_row in H. rewrite Forall_forall in H. apply H.
    rewrite <- (firstn_skipn a row). apply in_or_app. right.
    rewrite <- (firstn_skipn (b - a) (skipn a row)). apply in_or_app. now right. }
  apply row_sum_nonneg in H1. apply row_sum_nonneg in H2. lra.
Qed.

Lemma map_slice (A B : Type) (f : A -> B) (start stop : Z) (l : list A) :
  map f (py_slice start stop l) = py_slice start stop (map f l).
Proof.
  unfold py_slice. now rewrite length_map, skipn_map, firstn_map.
Qed.

Lemma low_window_le (r1 r2 c1 c2 : Z) (mag : list (list R)) :
  Forall nonneg_row mag ->
  0 <= array_sum (map (py_slice c1 c2) (py_slice r1 r2 mag)) <= array_sum mag.
Proof.
  intros H. unfold array_sum.
  assert (Hrows : forall rows,
            Forall nonneg_row rows ->
            0 <= row_sum (map row_sum (map (py_slice c1 c2) rows))
            <= row_sum (map row_sum rows)).
  { induction 1 as [|row rows Hrow _ IH]; simpl; [lra|].
    pose proof (slice_sum_le c1 c2 row Hrow). unfold row_sum in *. lra. }
  pose proof (Hrows _ (Forall_slice _ _ r1 r2 mag H)) as [Hlo Hhi].
  split; [exact Hlo|].
  eapply Rle_trans; [exact Hhi|].
  rewrite map_slice. apply slice_sum_le.
  apply Forall_forall. intros x Hx. apply in_map_iff in Hx.
  destruct Hx as (row & <- & Hrow). apply row_sum_nonneg.
  rewrite Forall_forall in H. now apply H.
Qed.

Variable Img : Type.
Variable magnitude : Img -> list (list R).


End FrequencyFacts.


(* ================================================================== *)
(** * Sanitised file names *)

Section ValidationFacts.

Import Validation.

Variable isalnum_other : N -> bool.

Local Abbreviation safe := (safe_char isalnum_other).
Local Abbreviation sanitize := (sanitize_filename isalnum_other).

Lemma basename_from (p acc : pystr) :
  ~ In 47%N p ->
  fold_left (fun acc c => if (c =? 47)%N then [] else (acc ++ [c])%list) p acc
  = (acc ++ p)%list.
Proof.
  revert acc. induction p as [|c p IH]; intros acc Hp; simpl.
  - now rewrite app_nil_r.
  - destruct (N.eqb_spec c 47) as [->|_]; [exfalso; apply Hp; now left|].
    rewrite IH by (intros Hin; apply Hp; now right).
    now rewrite <- app_assoc.
Qed.

Lemma basename_without_separator (p : pystr) : ~ In 47%N p -> basename p = p.
Proof. intros Hp. unfold basename. now rewrite basename_from. Qed.

Lemma separator_is_unsafe : safe 47%N = false.
Proof. reflexivity. Qed.

Lemma backslash_is_unsafe : safe 92%N = false.
Proof. reflexivity. Qed.

Lemma default_name_is_safe : Forall (fun c => safe c = true) default_name.
Proof. unfold default_name. cbn. repeat constructor. Qed.

Lemma filter_keeps_all (A : Type) (p : A -> bool) (l : list A) :
  Forall (fun x => p x = true) l -> filter p l = l.
Proof.
  induction 1 as [|x l Hx _ IH]; simpl; [reflexivity|]. now rewrite Hx, IH.
Qed.

Lemma filter_all_pass (A : Type) (p : A -> bool) (l : list A) :
  Forall (fun x => p x = true) (filter p l).
Proof. apply Forall_forall. intros x Hx. apply filter_In in Hx. tauto. Qed.

Lemma safe_name_is_kept (name : pystr) :
  name <> [] -> (List.length name <= 255)%nat ->
  Forall (fun c => safe c = true) name ->
  sanitize name = name.
Proof.
  intros Hne Hlen Hsafe. unfold sanitize_filename.
  rewrite basename_without_separator.
  - rewrite filter_keeps_all by exact Hsafe.
    destruct name as [|c rest]; [congruence|].
    destruct (Nat.ltb_spec 255 (List.length (c :: rest))); [lia|reflexivity].
  - intros Hin. rewrite Forall_forall in Hsafe. apply Hsafe in Hin.
    rewrite separator_is_unsafe in Hin. discriminate.
Qed.

Lemma sanitize_result (filename : pystr) :
  sanitize filename <> [] /\
  (List.length (sanitize filename) <= 255)%nat /\
  Forall (fun c => safe c = true) (sanitize filename).
Proof.
  unfold sanitize_filename.
  pose proof (filter_all_pass _ safe (basename filename)) as Hsafe.
  destruct (filter safe (basename filename)) as [|c rest] eqn:Hf.
  - split; [discriminate|]. split; [cbn; lia|apply default_name_is_safe].
  - destruct (Nat.ltb_spec 255 (List.length (c :: rest))).
    + split; [discriminate|]. split; [cbn; lia|apply default_name_is_safe].
    + split; [discriminate|]. split; [lia|exact Hsafe].
Qed.

(** X15: whatever the upload is called, the name [sanitize_filename]
    returns is not empty, has at most 255 characters, consists of
    alphanumeric characters and [._-] only, and so holds neither a slash
    nor a backslash. *)
Theorem sanitize_filename_is_safe (filename : pystr) :
  sanitize filename <> [] /\
  (List.length (sanitize filename) <= 255)%nat /\
  Forall (fun c => safe c = true) (sanitize filename) /\
  ~ In 47%N (sanitize filename) /\
  ~ In 92%N (sanitize filename).
Proof.
  destruct (sanitize_result filename) as (Hne & Hlen & Hsafe).
  repeat split; try assumption.
  - intros Hin. rewrite Forall_forall in Hsafe. apply Hsafe in Hin.
    rewrite separator_is_unsafe in Hin. discriminate.
  - intros Hin. rewrite Forall_forall in Hsafe. apply Hsafe in Hin.
    rewrite backslash_is_unsafe in Hin. discriminate.
Qed.

(** X16: the names [sanitize_filename] leaves as they are are exactly the
    non-empty names of at most 255 safe characters.  Hence sanitising
    twice is sanitising once, and the names [.] and [..] pass unchanged. *)
Theorem sanitize_filename_fixed_points (filename : pystr) :
  (sanitize filename = filename <->
   filename <> [] /\ (List.length filename <= 255)%nat /\
   Forall (fun c => safe c = true) filename) /\
  sanitize (sanitize filename) = sanitize filename /\
  sanitize (codes ".") = codes "." /\
  sanitize (codes "..") = codes "..".
Proof.
  split; [split|split; [|split]].
  - intros H. rewrite <- H. apply sanitize_result.
  - intros (Hne & Hlen & Hsafe). now apply safe_name_is_kept.
  - destruct (sanitize_result filename) as (Hne & Hlen & Hsafe).
    now apply safe_name_is_kept.
  - reflexivity.
  - reflexivity.
Qed.

End ValidationFacts.

(* ================================================================== *)
(** * The rate limiter counts a sliding window *)

Section RateLimiterFacts.

Import RateLimiter.

Open Scope R_scope.

Lemma requests_set_same (c : string) (q : list R) (l : Limiter) :
  requests (set_requests c q l) c = q.
Proof. unfold set_requests. cbn. now rewrite String.eqb_refl. Qed.

Lemma requests_set_other (c c' : string) (q : list R) (l : Limiter) :
  c' <> c -> requests (set_requests c q l) c' = requests l c'.
Proof.
  intros H. unfold set_requests. cbn. destruct (String.eqb_spec c' c); congruence.
Qed.

Lemma drop_old_split (cutoff : R) (q : list R) :
  exists dropped,
    q = (dropped ++ drop_old cutoff q)%list /\ Forall (fun x => x < cutoff) dropped.
Proof.
  induction q as [|x q (dropped & Hq & Hd)]; cbn [drop_old].
  - exists []. split; [reflexivity|constructor].
  - destruct (Rlt_dec x cutoff) as [Hx|_].
    + exists (x :: dropped). split; [cbn; f_equal; exact Hq|now constructor].
    + exists []. split; [reflexivity|constructor].
Qed.

Lemma drop_old_length (cutoff : R) (q : list R) :
  (List.length (drop_old cutoff q) <= List.length q)%nat.
Proof.
  induction q as [|x q IH]; cbn [drop_old]; [lia|].
  destruct (Rlt_dec x cutoff); cbn [List.length] in *; lia.
Qed.

Lemma drop_old_sorted (cutoff : R) (q : list R) :
  StronglySorted Rle q ->
  Forall (fun x => cutoff <= x) (drop_old cutoff q) /\
  StronglySorted Rle (drop_old cutoff q).
Proof.
  induction q as [|x q IH]; intros Hs; cbn [drop_old].
  - split; constructor.
  - inversion Hs as [|? ? Hq Hx]; subst.
    destruct (Rlt_dec x cutoff) as [_|Hge]; [now apply IH|].
    split; [|exact Hs].
    constructor; [lra|].
    eapply Forall_impl; [|exact Hx]. cbn. intros y Hy. lra.
Qed.

Lemma sorted_snoc (q : list R) (t : R) :
  StronglySorted Rle q -> Forall (fun x => x <= t) q ->
  StronglySorted Rle (q ++ [t]).
Proof.
  induction 1 as [|x q Hq IH Hx]; intros Hle; cbn.
  - repeat constructor.
  - inversion Hle as [|? ? Hxt Hqt]; subst. constructor; [now apply IH|].
    apply Forall_app. split; [exact Hx|]. constructor; [exact Hxt|constructor].
Qed.

Lemma filter_drops_all (A : Type) (p : A -> bool) (l : list A) :
  Forall (fun x => p x = false) l -> filter p l = [].
Proof.
  induction 1 as [|x l Hx _ IH]; cbn; [reflexivity|]. now rewrite Hx.
Qed.

Lemma filter_holds_all (A : Type) (p : A -> bool) (l : list A) :
  Forall (fun x => p x = true) l -> filter p l = l.
Proof.
  induction 1 as [|x l Hx _ IH]; cbn; [reflexivity|]. now rewrite Hx, IH.
Qed.

(** What one call does to the limiter. *)
Lemma check_rate_limit_spec (c : string) (t : R) (l : Limiter) :
  max_requests (snd (check_rate_limit c t l)) = max_requests l /\
  window_seconds (snd (check_rate_limit c t l)) = window_seconds l /\
  (forall c', c' <> c ->
     requests (snd (check_rate_limit c t l)) c' = requests l c') /\
  ((max_requests l
    <= Z.of_nat (List.length
                   (drop_old (t - IZR (window_seconds l)) (requests l c))))%Z /\
   fst (check_rate_limit c t l) = inl (HTTPException 429) /\
   requests (snd (check_rate_limit c t l)) c
   = drop_old (t - IZR (window_seconds l)) (requests l c)
   \/
   (Z.of_nat (List.length
                (drop_old (t - IZR (window_seconds l)) (requests l c)))
    < max_requests l)%Z /\
   fst (check_rate_limit c t l) = inr true /\
   requests (snd (check_rate_limit c t l)) c
   = (drop_old (t - IZR (window_seconds l)) (requests l c) ++ [t])%list).
Proof.
  unfold check_rate_limit, _cleanup_old_requests.
  set (kept := drop_old (t - IZR (window_seconds l)) (requests l c)).
  rewrite requests_set_same.
  change (max_requests (set_requests c kept l)) with (max_requests l).
  destruct (Z.leb_spec (max_requests l) (Z.of_nat (List.length kept)));
    cbn [fst snd].
  - split; [reflexivity|]. split; [reflexivity|]. split.
    + intros c' Hc. now apply requests_set_other.
    + left. split; [assumption|]. split; [reflexivity|apply requests_set_same].
  - split; [reflexivity|]. split; [reflexivity|]. split.
    + intros c' Hc. now rewrite !requests_set_other.
    + right. split; [assumption|]. split; [reflexivity|apply requests_set_same].
Qed.

Lemma check_rate_limit_bounded (c : string) (t : R) (l : Limiter) :
  bounded l -> bounded (snd (check_rate_limit c t l)).
Proof.
  intros Hb c'.
  destruct (check_rate_limit_spec c t l) as (Hmax & _ & Hother & Hcase).
  rewrite Hmax. destruct (string_dec c' c) as [->|Hne].
  - pose proof (drop_old_length (t - IZR (window_seconds l)) (requests l c)).
    specialize (Hb c).
    destruct Hcase as [(Hge & _ & ->)|(Hlt & _ & ->)]; [lia|].
    rewrite length_app. cbn [List.length]. lia.
  - rewrite Hother by exact Hne. apply Hb.
Qed.

Lemma serve_bounded (events : list (string * R)) :
  forall l log,
    bounded l ->
    bounded (fst (serve events l log)) /\
    max_requests (fst (serve events l log)) = max_requests l.
Proof.
  induction events as [|[c t] rest IH]; intros l log Hb; cbn [serve].
  - split; [exact Hb|reflexivity].
  - pose proof (check_rate_limit_bounded c t l Hb) as Hb'.
    destruct (check_rate_limit_spec c t l) as (Hmax & _).
    destruct (check_rate_limit c t l) as [[e|b] l']; cbn [snd] in *.
    + destruct (IH l' log Hb') as [H1 H2]. split; [exact H1|congruence].
    + destruct (IH l' (log ++ [(c, t)])%list Hb') as [H1 H2].
      split; [exact H1|congruence].
Qed.

(** X17: however many requests arrive and whatever their times are, the
    deque the limiter keeps for a client never holds more than
    [max_requests] entries (none when the limit is not positive). *)
Theorem rate_limiter_deques_stay_bounded (events : list (string * R))
    (max window : Z) (client_id : string) :
  (Z.of_nat (List.length
               (requests (fst (serve events (new_limiter max window) [])) client_id))
   <= Z.max 0 max)%Z.
Proof.
  assert (Hb : bounded (new_limiter max window)) by (intros c; cbn; lia).
  destruct (serve_bounded events (new_limiter max window) [] Hb) as [H1 H2].
  specialize (H1 client_id). rewrite H2 in H1. exact H1.
Qed.

Lemma times_of_app (c : string) (log1 log2 : list (string * R)) :
  times_of c (log1 ++ log2) = (times_of c log1 ++ times_of c log2)%list.
Proof. unfold times_of. now rewrite filter_app, map_app. Qed.

Lemma times_of_same (c : string) (t : R) : times_of c [(c, t)] = [t].
Proof. unfold times_of. cbn. now rewrite String.eqb_refl. Qed.

Lemma times_of_other (c c' : string) (t : R) : c' <> c -> times_of c' [(c, t)] = [].
Proof.
  intros H. unfold times_of. cbn.
  destruct (String.eqb_spec c c'); [congruence|reflexivity].
Qed.

Lemma Forall_lt_weaken (a b : R) (l : list R) :
  a <= b -> Forall (fun x => x < a) l -> Forall (fun x => x < b) l.
Proof. intros Hab. apply Forall_impl. intros x Hx. lra. Qed.

Lemma Forall_le_weaken (a b : R) (l : list R) :
  a <= b -> Forall (fun x => x <= a) l -> Forall (fun x => x <= b) l.
Proof. intros Hab. apply Forall_impl. intros x Hx. lra. Qed.

(** One call keeps the deques in step with the log of accepted requests. *)
Lemma check_rate_limit_tracks (c : string) (t : R) (l : Limiter)
    (log : list (string * R)) (T : R) :
  tracks l log T -> T <= t ->
  tracks (snd (check_rate_limit c t l))
         (match fst (check_rate_limit c t l) with
          | inr _ => (log ++ [(c, t)])%list
          | inl _ => log
          end) t.
Proof.
  intros Htr HT c'.
  destruct (check_rate_limit_spec c t l) as (_ & HW & Hother & Hcase).
  rewrite HW.
  destruct (Htr c') as (old & Hlog & Hold & Hsorted & Hle).
  assert (Hold' : Forall (fun x => x < t - IZR (window_seconds l)) old)
    by (apply Forall_lt_weaken with (T - IZR (window_seconds l)); [lra|exact Hold]).
  destruct (string_dec c' c) as [->|Hne].
  - destruct (drop_old_split (t - IZR (window_seconds l)) (requests l c))
      as (dropped & Hsplit & Hdropped).
    destruct (drop_old_sorted (t - IZR (window_seconds l)) _ Hsorted)
      as (_ & Hkept_sorted).
    set (kept := drop_old (t - IZR (window_seconds l)) (requests l c)) in *.
    assert (Hkept_le : Forall (fun x => x <= t) kept).
    { apply Forall_le_weaken with T; [exact HT|].
      rewrite Hsplit in Hle. apply Forall_app in Hle. tauto. }
    exists (old ++ dropped)%list.
    destruct Hcase as [(_ & -> & ->)|(_ & -> & ->)].
    + split; [rewrite Hlog, Hsplit; now rewrite app_assoc|].
      split; [apply Forall_app; now split|]. split; assumption.
    + split.
      { rewrite times_of_app, times_of_same, Hlog, Hsplit.
        now rewrite !app_assoc. }
      split; [apply Forall_app; now split|].
      split; [now apply sorted_snoc|].
      apply Forall_app. split; [exact Hkept_le|]. constructor; [lra|constructor].
  - exists old. rewrite (Hother c' Hne).
    assert (Hlog' : times_of c'
                      (match fst (check_rate_limit c t l) with
                       | inr _ => (log ++ [(c, t)])%list
                       | inl _ => log
                       end) = times_of c' log).
    { destruct (fst (check_rate_limit c t l)); [reflexivity|].
      rewrite times_of_app, times_of_other by exact Hne. apply app_nil_r. }
    rewrite Hlog'.
    split; [exact Hlog|]. split; [exact Hold'|]. split; [exact Hsorted|].
    apply Forall_le_weaken with T; assumption.
Qed.

Lemma serve_tracks (events : list (string * R)) :
  forall l log T t,
    tracks l log T -> T <= t ->
    StronglySorted Rle (map snd events ++ [t]) ->
    Forall (fun x => T <= x) (map snd events) ->
    exists T',
      T' <= t /\
      tracks (fst (serve events l log)) (snd (serve events l log)) T' /\
      max_requests (fst (serve events l log)) = max_requests l /\
      window_seconds (fst (serve events l log)) = window_seconds l.
Proof.
  induction events as [|[c0 t0] rest IH]; intros l log T t Htr HT Hs Hge;
    cbn [serve].
  - exists T. repeat split; assumption.
  - cbn [map snd app] in Hs, Hge.
    inversion Hs as [|? ? Hrest Hhead]; subst.
    inversion Hge as [|? ? HT0 _]; subst.
    apply Forall_app in Hhead. destruct Hhead as [Hhead Hlast].
    inversion Hlast as [|? ? Ht0 _]; subst.
    pose proof (check_rate_limit_tracks c0 t0 l log T Htr HT0) as Hstep.
    destruct (check_rate_limit_spec c0 t0 l) as (Hmax & HW & _).
    destruct (check_rate_limit c0 t0 l) as [[e|b] l']; cbn [fst snd] in *.
    + destruct (IH l' log t0 t Hstep Ht0 Hrest Hhead) as (T' & H1 & H2 & H3 & H4).
      exists T'. repeat split; try assumption; congruence.
    + destruct (IH l' (log ++ [(c0, t0)])%list t0 t Hstep Ht0 Hrest Hhead)
        as (T' & H1 & H2 & H3 & H4).
      exists T'. repeat split; try assumption; congruence.
Qed.

Lemma recent_length (c : string) (cutoff : R) (log : list (string * R)) :
  List.length (recent c cutoff log)
  = List.length
      (filter (fun x => if Rlt_dec x cutoff then false else true) (times_of c log)).
Proof.
  unfold recent, times_of.
  induction log as [|[c' t'] log IH]; cbn [filter map fst snd]; [reflexivity|].
  destruct (String.eqb c' c); cbn [andb filter map snd]; [|exact IH].
  destruct (Rlt_dec t' cutoff); cbn [List.length]; now rewrite IH.
Qed.

(** X18: when the times the limiter reads never go back, a request is
    turned away with status 429 exactly when the client already has
    [max_requests] accepted requests that are not older than
    [window_seconds], and is let through exactly when it has fewer. *)
Theorem check_rate_limit_counts_the_window (earlier : list (string * R))
    (max window : Z) (client_id : string) (t : R) :
  StronglySorted Rle (map snd earlier ++ [t]) ->
  let served := serve earlier (new_limiter max window) [] in
  let in_window := recent client_id (t - IZR window) (snd served) in
  (fst (check_rate_limit client_id t (fst served)) = inl (HTTPException 429)
   <-> (max <= Z.of_nat (List.length in_window))%Z) /\
  (fst (check_rate_limit client_id t (fst served)) = inr true
   <-> (Z.of_nat (List.length in_window) < max)%Z).
Proof.
  intros Hs served in_window.
  set (T := hd t (map snd earlier)).
  assert (HT : T <= t).
  { subst T. destruct earlier as [|[c0 t0] rest]; cbn in *; [lra|].
    inversion Hs as [|? ? _ Hhead]; subst.
    apply Forall_app in Hhead. destruct Hhead as [_ Hlast].
    now inversion Hlast. }
  assert (Hge : Forall (fun x => T <= x) (map snd earlier)).
  { subst T. destruct earlier as [|[c0 t0] rest]; cbn in *; [constructor|].
    inversion Hs as [|? ? _ Hhead]; subst.
    apply Forall_app in Hhead. destruct Hhead as [Hhead _].
    constructor; [lra|exact Hhead]. }
  assert (Hinit : tracks (new_limiter max window) [] T).
  { intros c. exists []. cbn. repeat split; constructor. }
  destruct (serve_tracks earlier (new_limiter max window) [] T t Hinit HT Hs Hge)
    as (T' & HT' & Htr & Hmax & HW).
  fold served in Htr, Hmax, HW. cbn [new_limiter max_requests window_seconds] in Hmax, HW.
  destruct (Htr client_id) as (old & Hlog & Hold & Hsorted & _).
  rewrite HW in Hold.
  destruct (drop_old_split (t - IZR window) (requests (fst served) client_id))
    as (dropped & Hsplit & Hdropped).
  destruct (drop_old_sorted (t - IZR window) _ Hsorted) as (Hkept & _).
  destruct (check_rate_limit_spec client_id t (fst served)) as (_ & _ & _ & Hcase).
  rewrite HW, Hmax in Hcase.
  set (kept := drop_old (t - IZR window) (requests (fst served) client_id)) in *.
  assert (Hcount : List.length in_window = List.length kept).
  { subst in_window. rewrite recent_length, Hlog, Hsplit, !filter_app.
    rewrite (filter_drops_all _ _ old), (filter_drops_all _ _ dropped),
      (filter_holds_all _ _ kept); [reflexivity| | |].
    - eapply Forall_impl; [|exact Hkept]. cbn. intros x Hx.
      destruct (Rlt_dec x (t - IZR window)); [lra|reflexivity].
    - eapply Forall_impl; [|exact Hdropped]. cbn. intros x Hx.
      destruct (Rlt_dec x (t - IZR window)); [reflexivity|lra].
    - eapply Forall_impl; [|exact Hold]. cbn. intros x Hx.
      destruct (Rlt_dec x (t - IZR window)); [reflexivity|lra]. }
  rewrite Hcount.
  destruct Hcase as [(Hge' & -> & _)|(Hlt & -> & _)].
  - split; split; intros H; try reflexivity; try discriminate; lia.
  - split; split; intros H; try reflexivity; try discriminate; lia.
Qed.

End RateLimiterFacts.

(** X18 at a concrete input: a third request of one client within a
    window that allows two. *)
Lemma check_rate_limit_counts_three_requests :
  StronglySorted Rle (map snd [("a"%string, 0%R); ("a"%string, 1%R)] ++ [2%R]) /\
  (fst (RateLimiter.check_rate_limit "a" 2
          (fst (RateLimiter.serve [("a"%string, 0%R); ("a"%string, 1%R)]
                  (RateLimiter.new_limiter 2 60) [])))
   = inl (RateLimiter.HTTPException 429)
   <-> (2 <= Z.of_nat
               (List.length
                  (RateLimiter.recent "a" (2 - IZR 60)
                     (snd (RateLimiter.serve [("a"%string, 0%R); ("a"%string, 1%R)]
                             (RateLimiter.new_limiter 2 60) [])))))%Z).
Proof.
  assert (Hs : StronglySorted Rle
                 (map snd [("a"%string, 0%R); ("a"%string, 1%R)] ++ [2%R])).
  { cbn. repeat constructor; lra. }
  split; [exact Hs|].
  exact (proj1 (check_rate_limit_counts_the_window
                  [("a"%string, 0%R); ("a"%string, 1%R)] 2 60 "a"%string 2%R Hs)).
Defined.
